(** * Sample physician scheduler: the CP-SAT model built by [main]

    A shallow embedding of [src/sample_physician_scheduler.py].  [main]
    builds a constraint model over a grid of Boolean decision variables
    [shifts[(p, d, s)]] (physician [p] works shift [s] of day [d]), sets an
    objective, hands the model to the CP-SAT solver and prints the schedule
    the solver returns, or "No solution found.", and the solver's statistics.

    The model is built by state passing, statement by statement as in the
    source; a statement that raises ends the run.  The solver's search is not
    modelled: a solution is any valuation of the variables, and it is
    feasible for a model when it respects every variable's domain and every
    posted constraint. *)

From Stdlib Require Import ZArith Lia.
From stdpp Require Import base option list sorting gmap strings pretty.

Local Open Scope Z_scope.

(** ** Solver objects *)

(** An integer variable of the model: its position in the model's variable
    list, its domain bounds and its name. *)
Record IntVar := mkIntVar {
  var_index : nat;
  var_lb : Z;
  var_ub : Z;
  var_name : string
}.

(** Expressions as the Python operators build them: [+], [-] and [*] on
    variables, integer literals and other expressions. *)
Inductive LinearExpr :=
| LConst (k : Z)
| LVar (v : IntVar)
| LAdd (a b : LinearExpr)
| LSub (a b : LinearExpr)
| LMul (a b : LinearExpr).

(** The comparisons [a >= b], [a <= b] and [a == b] handed to [model.Add]. *)
Inductive BoundedLinearExpression :=
| BGe (a b : LinearExpr)
| BLe (a b : LinearExpr)
| BEq (a b : LinearExpr).

(** The mutable [CpModel]: declared variables, posted constraints (both in
    posting order) and the objective to minimise, if one was set. *)
Record CpModel := mkCpModel {
  variables : list IntVar;
  constraints : list BoundedLinearExpression;
  objective : option LinearExpr
}.

Definition empty_model : CpModel := mkCpModel [] [] None.

(** ** Statements: state passing with failure

    Every statement of [main] either mutates some state (the model while it
    is built, the process's output while the result is printed) or raises
    ([KeyError] on a dictionary miss).  A computation takes the state and
    returns [None] when it raises, or its result and the new state. *)
Definition Stateful (S A : Type) : Type := S → option (A * S).

Global Instance Stateful_ret {S} : MRet (Stateful S) := λ A x st, Some (x, st).
Global Instance Stateful_bind {S} : MBind (Stateful S) := λ A B f c st,
  match c st with
  | Some (x, st') => f x st'
  | None => None
  end.

(** A dictionary read or any other pure step that may raise. *)
Definition lift {S A} (o : option A) : Stateful S A := λ st,
  match o with
  | Some x => Some (x, st)
  | None => None
  end.

(** [for x in l: body(x)] *)
Fixpoint for_each {S A} (l : list A) (body : A → Stateful S unit) : Stateful S unit :=
  match l with
  | [] => mret tt
  | x :: l' => body x ;; for_each l' body
  end.

(** [for x in l: acc = body(x, acc)], for loops that fill a dictionary. *)
Fixpoint for_acc {S A B} (l : list A) (body : A → B → Stateful S B) (acc : B) : Stateful S B :=
  match l with
  | [] => mret acc
  | x :: l' => acc' ← body x acc; for_acc l' body acc'
  end.

(** ** Building a model *)

Abbreviation Build := (Stateful CpModel).

(** [model.NewBoolVar(name)]: a fresh variable with domain [0, 1]. *)
Definition NewBoolVar (name : string) : Build IntVar := λ m,
  let v := mkIntVar (length (variables m)) 0 1 name in
  Some (v, mkCpModel (variables m ++ [v]) (constraints m) (objective m)).

(** [model.Add(ct)] *)
Definition Add (ct : BoundedLinearExpression) : Build unit := λ m,
  Some (tt, mkCpModel (variables m) (constraints m ++ [ct]) (objective m)).

(** [model.Minimize(obj)] *)
Definition Minimize (obj : LinearExpr) : Build unit := λ m,
  Some (tt, mkCpModel (variables m) (constraints m) (Some obj)).

(** Python's [sum(...)]: starts from the integer [0] and adds left to right. *)
Definition py_sum (l : list LinearExpr) : LinearExpr :=
  fold_left LAdd l (LConst 0).

(** [sum(f(x) for x in l)], where evaluating [f(x)] may raise. *)
Definition sum_gen {A} (f : A → option LinearExpr) (l : list A) : option LinearExpr :=
  py_sum <$> mapM f l.

(** ** The program's parameters (lines 5-10) *)

Definition num_physicians : nat := 10.
Definition num_shifts : nat := 3.
Definition num_days : nat := 7.
Definition all_physicians : list nat := seq 0 num_physicians.
Definition all_shifts : list nat := seq 0 num_shifts.
Definition all_days : list nat := seq 0 num_days.

(** The dictionary [shifts], keyed by [(p, d, s)]. *)
Abbreviation grid := (gmap (nat * nat * nat) IntVar).

(** [f'shift_p{p}_d{d}_s{s}'] *)
Definition shift_name (p d s : nat) : string :=
  "shift_p" +:+ pretty p +:+ "_d" +:+ pretty d +:+ "_s" +:+ pretty s.

(** Lines 16-20: one Boolean variable per physician, day and shift. *)
Definition create_shift_variables : Build grid :=
  for_acc all_physicians (λ p shifts,
    for_acc all_days (λ d shifts,
      for_acc all_shifts (λ s shifts,
        v ← NewBoolVar (shift_name p d s);
        mret (<[(p, d, s) := v]> shifts)) shifts) shifts) ∅.

(** [shifts[(p, d, s)]] used as an expression. *)
Definition shift_var (shifts : grid) (p d s : nat) : option LinearExpr :=
  LVar <$> shifts !! (p, d, s).

(** ** The constraints (lines 24-67) *)

(** Lines 24-32, coverage: every shift of every day has at least one
    physician, and shifts 0 and 1 at least two. *)
Definition add_coverage (shifts : grid) : Build unit :=
  for_each all_days (λ d,
    for_each all_shifts (λ s,
      e ← lift (sum_gen (λ p, shift_var shifts p d s) all_physicians);
      Add (BGe e (LConst 1)));;
    for_each [0; 1]%nat (λ s,
      e ← lift (sum_gen (λ p, shift_var shifts p d s) all_physicians);
      Add (BGe e (LConst 2)))).

(** Lines 34-42, shift length and rest: at most one shift a day, and no
    morning shift on the day after a night shift. *)
Definition add_rest (shifts : grid) : Build unit :=
  for_each all_physicians (λ p,
    for_each all_days (λ d,
      e ← lift (sum_gen (λ s, shift_var shifts p d s) all_shifts);
      Add (BLe e (LConst 1));;
      if (d <? num_days - 1)%nat then
        a ← lift (shift_var shifts p d 2);
        b ← lift (shift_var shifts p ((d + 1) mod 7) 0);
        Add (BLe (LAdd a b) (LConst 1))
      else mret tt)).

(** Lines 44-54, fairness: the dictionary [night_shifts] of per-physician
    night counts, then an equality for every pair [p1 < p2]. *)
Definition add_fairness (shifts : grid) : Build unit :=
  night_shifts ← for_acc all_physicians (λ p (night_shifts : gmap nat LinearExpr),
    e ← lift (sum_gen (λ d, shift_var shifts p d 2) all_days);
    mret (<[p := e]> night_shifts)) ∅;
  for_each all_physicians (λ p1,
    for_each all_physicians (λ p2,
      if (p1 <? p2)%nat then
        a ← lift (night_shifts !! p1);
        b ← lift (night_shifts !! p2);
        Add (BEq a b)
      else mret tt)).

(** Lines 56-61, senior physicians: physicians 8 and 9 work no night. *)
Definition add_senior (shifts : grid) : Build unit :=
  for_each all_days (λ d,
    a ← lift (shift_var shifts 8 d 2);
    Add (BEq a (LConst 0));;
    b ← lift (shift_var shifts 9 d 2);
    Add (BEq b (LConst 0))).

(** Lines 63-67, weekend: day 5 and day 6 carry the same assignment. *)
Definition add_weekend (shifts : grid) : Build unit :=
  for_each all_physicians (λ p,
    for_each all_shifts (λ s,
      a ← lift (shift_var shifts p 5 s);
      b ← lift (shift_var shifts p 6 s);
      Add (BEq a b))).

(** ** The objective (lines 69-77) *)

(** The generator [... for p1 in all_physicians for p2 in all_physicians
    if p1 < p2], as the list of the pairs it visits, in order. *)
Definition physician_pairs : list (nat * nat) :=
  p1 ← all_physicians; p2 ← all_physicians;
  if (p1 <? p2)%nat then [(p1, p2)] else [].

(** The generator [... for d in all_days for s in all_shifts]. *)
Definition day_shift_pairs : list (nat * nat) :=
  d ← all_days; s ← all_shifts; [(d, s)].

(** [a * b] on the solver's objects.  [cp_model] multiplies an expression by
    a number and nothing else: with an expression on both sides the operator
    raises [TypeError]. *)
Definition expr_mul (a b : LinearExpr) : option LinearExpr :=
  match a, b with
  | LConst _, _ | _, LConst _ => Some (LMul a b)
  | _, _ => None
  end.

(** Lines 69-77, with [mul] for the operator [*] of line 76. *)
Definition set_objective_with (mul : LinearExpr → LinearExpr → option LinearExpr)
    (shifts : grid) : Build unit :=
  total_shifts ← for_acc all_physicians (λ p (total_shifts : gmap nat LinearExpr),
    e ← lift (sum_gen (λ '(d, s), shift_var shifts p d s) day_shift_pairs);
    mret (<[p := e]> total_shifts)) ∅;
  obj ← lift (sum_gen (λ '(p1, p2),
    t1 ← total_shifts !! p1;
    t2 ← total_shifts !! p2;
    mul (LSub t1 t2) (LSub t1 t2)) physician_pairs);
  Minimize obj.

(** Lines 69-77 as they run. *)
Definition set_objective (shifts : grid) : Build unit :=
  set_objective_with expr_mul shifts.

(** ** [main] up to the call of the solver *)

(** Lines 12-67: the variables and the five rule families. *)
Definition build_constraints : Build grid :=
  shifts ← create_shift_variables;
  add_coverage shifts;;
  add_rest shifts;;
  add_fairness shifts;;
  add_senior shifts;;
  add_weekend shifts;;
  mret shifts.

(** Lines 12-77: then the objective. *)
Definition build_model : Build grid :=
  shifts ← build_constraints;
  set_objective shifts;;
  mret shifts.

(** The model with one rule family alone on top of the variables. *)
Definition build_with (rule : grid → Build unit) : Build grid :=
  shifts ← create_shift_variables; rule shifts;; mret shifts.

Definition model_of (b : Build grid) : CpModel :=
  from_option snd empty_model (b empty_model).

(** The model of [main]: what lines 12-67 build.  No later statement adds
    a variable or a constraint to it. *)
Definition main_model : CpModel := model_of build_constraints.
Definition grid_model : CpModel := model_of create_shift_variables.
Definition coverage_model : CpModel := model_of (build_with add_coverage).
Definition rest_model : CpModel := model_of (build_with add_rest).
Definition fairness_model : CpModel := model_of (build_with add_fairness).
Definition senior_model : CpModel := model_of (build_with add_senior).
Definition weekend_model : CpModel := model_of (build_with add_weekend).

(** The model with the two rule families on night shifts, fairness and
    senior physicians, and no other. *)
Definition night_rules_model : CpModel :=
  model_of (build_with (λ shifts, add_fairness shifts;; add_senior shifts)).

(** The dictionary [shifts] as [main] holds it after line 20. *)
Definition main_shifts : grid :=
  from_option fst ∅ (build_constraints empty_model).

(** ** Solutions

    What the solver hands back: a value for every variable, read through
    [solver.Value(var)]. *)
Definition Value (sol : nat → Z) (v : IntVar) : Z := sol (var_index v).

Fixpoint eval (sol : nat → Z) (e : LinearExpr) : Z :=
  match e with
  | LConst k => k
  | LVar v => Value sol v
  | LAdd a b => eval sol a + eval sol b
  | LSub a b => eval sol a - eval sol b
  | LMul a b => eval sol a * eval sol b
  end.

Definition holds (sol : nat → Z) (ct : BoundedLinearExpression) : Prop :=
  match ct with
  | BGe a b => eval sol b ≤ eval sol a
  | BLe a b => eval sol a ≤ eval sol b
  | BEq a b => eval sol a = eval sol b
  end.

Definition in_domain (sol : nat → Z) (v : IntVar) : Prop :=
  var_lb v ≤ Value sol v ≤ var_ub v.

(** A solution the solver may report for the model (status OPTIMAL or
    FEASIBLE): every variable within its domain, every constraint true. *)
Definition feasible (sol : nat → Z) (m : CpModel) : Prop :=
  Forall (in_domain sol) (variables m) ∧ Forall (holds sol) (constraints m).

Definition holdsb (sol : nat → Z) (ct : BoundedLinearExpression) : bool :=
  match ct with
  | BGe a b => eval sol b <=? eval sol a
  | BLe a b => eval sol a <=? eval sol b
  | BEq a b => eval sol a =? eval sol b
  end.

Definition in_domainb (sol : nat → Z) (v : IntVar) : bool :=
  (var_lb v <=? Value sol v) && (Value sol v <=? var_ub v).

Definition feasibleb (sol : nat → Z) (m : CpModel) : bool :=
  forallb (in_domainb sol) (variables m) && forallb (holdsb sol) (constraints m).

(** [m] declares every variable and posts every constraint of [m0]. *)
Definition includes (m0 m : CpModel) : Prop :=
  variables m0 ⊆ variables m ∧ constraints m0 ⊆ constraints m.

(** ** The grid read through a solution *)

(** The variable stored under [(p, d, s)]: variables are numbered in creation
    order, physician-major, then day, then shift ([main_shifts_lookup] below
    checks it against the dictionary). *)
Definition grid_var (p d s : nat) : IntVar :=
  mkIntVar ((p * num_days + d) * num_shifts + s) 0 1 (shift_name p d s).

(** [solver.Value(shifts[(p, d, s)])] *)
Definition assignment (sol : nat → Z) (p d s : nat) : Z :=
  Value sol (grid_var p d s).

Definition sumZ (l : list Z) : Z := foldr Z.add 0 l.

(** Number of physicians on shift [s] of day [d]. *)
Definition staffing (sol : nat → Z) (d s : nat) : nat :=
  length (filter (λ p, assignment sol p d s = 1) all_physicians).

(** [night_shift_count(p)]: nights worked by [p] over the week. *)
Definition night_shift_count (sol : nat → Z) (p : nat) : Z :=
  sumZ ((λ d, assignment sol p d 2) <$> all_days).

(** Shifts worked by [p] on day [d]. *)
Definition shifts_on_day (sol : nat → Z) (p d : nat) : Z :=
  sumZ ((λ s, assignment sol p d s) <$> all_shifts).

(** [total_shift_count(p)]: shifts worked by [p] over all days and shifts. *)
Definition total_shift_count (sol : nat → Z) (p : nat) : Z :=
  sumZ ((λ d, sumZ ((λ s, assignment sol p d s) <$> all_shifts)) <$> all_days).

(** ** Decidable equality of solver objects *)

Global Instance IntVar_eq_dec : EqDecision IntVar.
Proof. solve_decision. Defined.
Global Instance LinearExpr_eq_dec : EqDecision LinearExpr.
Proof. solve_decision. Defined.
Global Instance BoundedLinearExpression_eq_dec : EqDecision BoundedLinearExpression.
Proof. solve_decision. Defined.

(** The variables an expression or a constraint mentions. *)
Fixpoint vars_of (e : LinearExpr) : list IntVar :=
  match e with
  | LConst _ => []
  | LVar v => [v]
  | LAdd a b | LSub a b | LMul a b => vars_of a ++ vars_of b
  end.

Definition constraint_vars (ct : BoundedLinearExpression) : list IntVar :=
  match ct with
  | BGe a b | BLe a b | BEq a b => vars_of a ++ vars_of b
  end.

Definition mentions (v : IntVar) (ct : BoundedLinearExpression) : Prop :=
  v ∈ constraint_vars ct.

(** ** The expressions [main] builds, with the dictionary reads resolved *)

(** [sum(shifts[(p, d, s)] for p in all_physicians)] (lines 28 and 32) *)
Definition staff_expr (d s : nat) : LinearExpr :=
  py_sum ((λ p, LVar (grid_var p d s)) <$> all_physicians).

(** [sum(shifts[(p, d, s)] for s in all_shifts)] (line 38) *)
Definition day_expr (p d : nat) : LinearExpr :=
  py_sum ((λ s, LVar (grid_var p d s)) <$> all_shifts).

(** [night_shifts[p]] (line 48) *)
Definition night_expr (p : nat) : LinearExpr :=
  py_sum ((λ d, LVar (grid_var p d 2)) <$> all_days).

(** [total_shifts[p]] (line 73) *)
Definition total_expr (p : nat) : LinearExpr :=
  py_sum ((λ '(d, s), LVar (grid_var p d s)) <$> day_shift_pairs).

(** The expression lines 76-77 spell out, with [*] read as the product of
    the two values. *)
Definition objective_expr : LinearExpr :=
  py_sum ((λ '(p1, p2),
    LMul (LSub (total_expr p1) (total_expr p2))
         (LSub (total_expr p1) (total_expr p2))) <$> physician_pairs).

(** ** Checks over the program's finite ranges

    The loops run over [range(n)] for small fixed [n]; a decidable property
    of the indices is settled by running it over the ranges. *)
Definition all_in1 (n : nat) (f : nat → bool) : bool :=
  forallb f (seq 0 n).
Definition all_in2 (n k : nat) (f : nat → nat → bool) : bool :=
  all_in1 n (λ a, all_in1 k (f a)).
Definition all_in3 (n k j : nat) (f : nat → nat → nat → bool) : bool :=
  all_in1 n (λ a, all_in2 k j (f a)).

(** A model declares the grid when it declares each of its variables. *)
Definition declares_grid (m : CpModel) : Prop :=
  variables grid_model ⊆ variables m.

Definition includesb (m0 m : CpModel) : bool :=
  forallb (λ v, bool_decide (v ∈ variables m)) (variables m0) &&
  forallb (λ ct, bool_decide (ct ∈ constraints m)) (constraints m0).

(** ** Sample solutions *)

(** Everybody on every shift. *)
Definition all_hands : nat → Z := λ _, 1.

(** Nobody on any shift. *)
Definition day_off : nat → Z := λ _, 0.

(** Physician [p] alone, on the last day's night shift and on day 0's
    morning shift. *)
Definition night_then_morning (p : nat) : nat → Z := λ i,
  if bool_decide (i = var_index (grid_var p (num_days - 1) 2) ∨
                  i = var_index (grid_var p 0 0))
  then 1 else 0.

(** Everybody on every shift, but physicians 8 and 9 off every night. *)
Definition seniors_sleep : nat → Z := λ i,
  if bool_decide (Exists (λ d, i = var_index (grid_var 8 d 2) ∨
                               i = var_index (grid_var 9 d 2)) all_days)
  then 0 else 1.

(** Every physician [p] on exactly one night shift, that of day [p mod 7]. *)
Definition one_night_each : nat → Z := λ i,
  if bool_decide (Exists (λ p, i = var_index (grid_var p (p mod 7) 2))
                         all_physicians)
  then 1 else 0.

(** Physician 4 alone, on shift 1 of both days of the weekend. *)
Definition same_weekend : nat → Z := λ i,
  if bool_decide (i = var_index (grid_var 4 5 1) ∨
                  i = var_index (grid_var 4 6 1))
  then 1 else 0.

(** Physician 0 alone, on the morning shifts of days 0 and 1. *)
Definition two_mornings : nat → Z := λ i,
  if bool_decide (i = var_index (grid_var 0 0 0) ∨
                  i = var_index (grid_var 0 1 0))
  then 1 else 0.

(** ** The objective as the specification words it *)

(** The sum, over all unordered pairs [p1 < p2] of [n] physicians, of the
    squared difference of their workloads [T]. *)
Definition pairwise_squared_differences (T : nat → Z) (n : nat) : Z :=
  sumZ ((λ p1,
    sumZ ((λ p2, (T p1 - T p2) ^ 2) <$> seq (S p1) (n - S p1))) <$> seq 0 n).

(** ** Printing the result (lines 83-96) *)

(** [cp_model]'s solver statuses. *)
Inductive CpSolverStatus :=
| UNKNOWN | MODEL_INVALID | FEASIBLE | INFEASIBLE | OPTIMAL.

Global Instance CpSolverStatus_eq_dec : EqDecision CpSolverStatus.
Proof. solve_decision. Defined.

(** What the printing code does to the outside: it writes text to the
    standard output and it asks the solver for the value of a variable. *)
Inductive Event :=
| Printed (text : string)
| ValueRead (v : IntVar).

Abbreviation Run := (Stateful (list Event)).

Definition newline : string := String (Ascii.ascii_of_nat 10) "".

(** [print(text, end=end_)] *)
Definition print (text end_ : string) : Run unit := λ tr,
  Some (tt, tr ++ [Printed (text +:+ end_)]).

(** [solver.Value(v)] *)
Definition solver_Value (sol : nat → Z) (v : IntVar) : Run Z := λ tr,
  Some (Value sol v, tr ++ [ValueRead v]).

Definition print_solution (shifts : grid) (sol : nat → Z)
    (status : CpSolverStatus) : Run unit :=
  if bool_decide (status = OPTIMAL) || bool_decide (status = FEASIBLE) then
    print "Solution found:" newline;;
    for_each all_days (λ d,
      print ("Day " +:+ pretty (d + 1)%nat +:+ ":") newline;;
      for_each all_shifts (λ s,
        print ("  Shift " +:+ pretty (s + 1)%nat +:+ ":") " ";;
        for_each all_physicians (λ p,
          v ← lift (shifts !! (p, d, s));
          x ← solver_Value sol v;
          if x =? 1 then print ("P" +:+ pretty (p + 1)%nat) " " else mret tt);;
        print "" newline);;
      print "" newline)
  else
    print "No solution found." newline.

(** The text written and the variables read along a trace. *)
Fixpoint stdout (tr : list Event) : string :=
  match tr with
  | [] => ""
  | Printed text :: tr' => text +:+ stdout tr'
  | ValueRead _ :: tr' => stdout tr'
  end.

Fixpoint value_reads (tr : list Event) : list IntVar :=
  match tr with
  | [] => []
  | Printed _ :: tr' => value_reads tr'
  | ValueRead v :: tr' => v :: value_reads tr'
  end.

(** ** The report as the specification words it

    Day by day in ascending order, shift by shift in ascending order, the
    physicians whose variable resolved to 1 in ascending identifier order;
    days, shifts and physicians are displayed 1-indexed. *)
Definition assigned_physicians (sol : nat → Z) (d s : nat) : list nat :=
  filter (λ p, assignment sol p d s = 1) all_physicians.

Definition schedule (sol : nat → Z) : list (nat * list (nat * list nat)) :=
  (λ d, ((d + 1)%nat,
    (λ s, ((s + 1)%nat, (λ p, (p + 1)%nat) <$> assigned_physicians sol d s))
      <$> all_shifts)) <$> all_days.

Definition concat_strings (l : list string) : string :=
  foldr String.app "" l.

Definition render_physician (p : nat) : string := "P" +:+ pretty p +:+ " ".

Definition render_shift (row : nat * list nat) : string :=
  "  Shift " +:+ pretty row.1 +:+ ": " +:+
  concat_strings (render_physician <$> row.2) +:+ newline.

Definition render_day (day : nat * list (nat * list nat)) : string :=
  "Day " +:+ pretty day.1 +:+ ":" +:+ newline +:+
  concat_strings (render_shift <$> day.2) +:+ newline.

Definition render (sched : list (nat * list (nat * list nat))) : string :=
  "Solution found:" +:+ newline +:+ concat_strings (render_day <$> sched).

(** ** The trace of the printing loops, innermost first *)

(** A computation that cannot raise and only extends the trace by [out]. *)
Definition emits (c : Run unit) (out : list Event) : Prop :=
  ∀ tr, c tr = Some (tt, tr ++ out).

Definition physician_trace (sol : nat → Z) (d s p : nat) : list Event :=
  ValueRead (grid_var p d s) ::
  if assignment sol p d s =? 1
  then [Printed (("P" +:+ pretty (p + 1)%nat) +:+ " ")] else [].

Definition shift_trace (sol : nat → Z) (d s : nat) : list Event :=
  [Printed (("  Shift " +:+ pretty (s + 1)%nat +:+ ":") +:+ " ")] ++
  (all_physicians ≫= physician_trace sol d s) ++
  [Printed ("" +:+ newline)].

Definition day_trace (sol : nat → Z) (d : nat) : list Event :=
  [Printed (("Day " +:+ pretty (d + 1)%nat +:+ ":") +:+ newline)] ++
  (all_shifts ≫= shift_trace sol d) ++
  [Printed ("" +:+ newline)].

Definition solution_trace (sol : nat → Z) : list Event :=
  [Printed ("Solution found:" +:+ newline)] ++ (all_days ≫= day_trace sol).

(** ** Rosters

    A solution given by the list of the cells [(p, d, s)] it assigns. *)
Definition roster (cells : list (nat * nat * nat)) : nat → Z := λ i,
  if bool_decide (i ∈ (λ '(p, d, s), var_index (grid_var p d s)) <$> cells)
  then 1 else 0.

(** A week for ten physicians of whom 8 and 9 work no night: 8 and 9 take
    every morning, 6 and 7 every afternoon, and physicians 0 to 5 the nights,
    physician 5 both nights of the weekend. *)
Definition seniors_by_day : list (nat * nat * nat) :=
  (d ← all_days; [(8, d, 0); (9, d, 0); (6, d, 1); (7, d, 1)]%nat) ++
  [(0, 0, 2); (1, 1, 2); (2, 2, 2); (3, 3, 2); (4, 4, 2); (5, 5, 2); (5, 6, 2)]%nat.

(** A week in which every physician works exactly two nights. *)
Definition two_nights_each : list (nat * nat * nat) :=
  [ (5, 0, 0); (6, 0, 0); (7, 0, 1); (8, 0, 1);
    (1, 0, 2); (2, 0, 2); (3, 0, 2); (4, 0, 2);
    (0, 1, 0); (9, 1, 0); (1, 1, 1); (2, 1, 1);
    (5, 1, 2); (6, 1, 2); (7, 1, 2); (8, 1, 2);
    (0, 2, 0); (4, 2, 0); (5, 2, 1); (6, 2, 1);
    (9, 2, 2); (1, 2, 2); (2, 2, 2); (3, 2, 2);
    (0, 3, 0); (8, 3, 0); (1, 3, 1); (2, 3, 1);
    (4, 3, 2); (5, 3, 2); (6, 3, 2); (7, 3, 2);
    (0, 4, 0); (1, 4, 0); (2, 4, 1); (3, 4, 1);
    (8, 4, 2); (9, 4, 2);
    (1, 5, 0); (2, 5, 0); (3, 5, 1); (4, 5, 1); (0, 5, 2);
    (1, 6, 0); (2, 6, 0); (3, 6, 1); (4, 6, 1); (0, 6, 2) ]%nat.

(** ** The model of [main] with one rule family left out *)

Definition without_coverage_model : CpModel :=
  model_of (build_with (λ shifts,
    add_rest shifts;; add_fairness shifts;; add_senior shifts;;
    add_weekend shifts)).

Definition without_fairness_model : CpModel :=
  model_of (build_with (λ shifts,
    add_coverage shifts;; add_rest shifts;; add_senior shifts;;
    add_weekend shifts)).

Definition without_senior_model : CpModel :=
  model_of (build_with (λ shifts,
    add_coverage shifts;; add_rest shifts;; add_fairness shifts;;
    add_weekend shifts)).

(** ** The cells of the grid *)

(** The keys in the order lines 17-19 visit them. *)
Definition grid_cells : list (nat * nat * nat) :=
  p ← all_physicians; d ← all_days; s ← all_shifts; [(p, d, s)].

Definition in_grid (p d s : nat) : Prop :=
  (p < num_physicians ∧ d < num_days ∧ s < num_shifts)%nat.

Global Instance in_grid_dec p d s : Decision (in_grid p d s).
Proof. unfold in_grid. apply _. Defined.

(** ** Posting on an arbitrary model *)

(** The model [m] with the constraints [cts] appended, nothing else changed. *)
Definition add_all (cts : list BoundedLinearExpression) (m : CpModel) : CpModel :=
  mkCpModel (variables m) (constraints m ++ cts) (objective m).

(** A computation that, from every model, returns [x] without raising and
    leaves the model with [cts] appended. *)
Definition posts {A} (c : Build A) (x : A) (cts : list BoundedLinearExpression) : Prop :=
  ∀ m, c m = Some (x, add_all cts m).

(** The dictionaries [night_shifts] (line 48) and [total_shifts] (line 73)
    once their loops have run. *)
Definition night_shifts_dict : gmap nat LinearExpr :=
  fold_left (λ night_shifts p, <[p := night_expr p]> night_shifts) all_physicians ∅.

Definition total_shifts_dict : gmap nat LinearExpr :=
  fold_left (λ total_shifts p, <[p := total_expr p]> total_shifts) all_physicians ∅.

(** The physicians who work a shift on day [d]. *)
Definition at_work (sol : nat → Z) (d : nat) : list nat :=
  filter (λ p, shifts_on_day sol p d = 1) all_physicians.

(** ** The whole of [main] (lines 3-103) *)




(** The grid's variables in the order the printing loops read them. *)
Definition reading_order : list IntVar :=
  d ← all_days; s ← all_shifts; p ← all_physicians; [grid_var p d s].
(** * Proofs *)

(** ** Running a property over the ranges *)

Section ranges.
Variable n : nat.

Lemma range1 (f : nat → bool) :
  all_in1 n f = true → ∀ a, (a < n)%nat → f a = true.
Proof.
  unfold all_in1. rewrite forallb_forall. intros Hall a Ha.
  apply Hall, in_seq. lia.
Qed.

Lemma range1_decide (P : nat → Prop) (dec : ∀ a, Decision (P a)) :
  all_in1 n (λ a, bool_decide (P a)) = true → ∀ a, (a < n)%nat → P a.
Proof.
  intros Hall a Ha. eapply bool_decide_eq_true_1, (range1 _ Hall a Ha).
Qed.
End ranges.

Lemma range2_decide (P : nat → nat → Prop) (dec : ∀ a b, Decision (P a b))
    (n k : nat) :
  all_in2 n k (λ a b, bool_decide (P a b)) = true →
  ∀ a b, (a < n)%nat → (b < k)%nat → P a b.
Proof.
  intros Hall a b Ha Hb.
  pose proof (range1 n _ Hall a Ha) as Hrow.
  eapply bool_decide_eq_true_1, (range1 k _ Hrow b Hb).
Qed.

Lemma range3_decide (P : nat → nat → nat → Prop)
    (dec : ∀ a b c, Decision (P a b c)) (n k j : nat) :
  all_in3 n k j (λ a b c, bool_decide (P a b c)) = true →
  ∀ a b c, (a < n)%nat → (b < k)%nat → (c < j)%nat → P a b c.
Proof.
  intros Hall a b c Ha Hb Hc.
  pose proof (range1 n _ Hall a Ha) as Hplane.
  pose proof (range1 k _ Hplane b Hb) as Hrow.
  eapply bool_decide_eq_true_1, (range1 j _ Hrow c Hc).
Qed.

(** Settles a goal [∀ a b .., a < n → b < k → .. → P a b ..] with [P]
    decidable by evaluating [P] at every point of the ranges. *)
Ltac check_ranges :=
  lazymatch goal with
  | |- ∀ a b c, (a < ?n)%nat → (b < ?k)%nat → (c < ?j)%nat → @?P a b c =>
      let dec := constr:(ltac:(intros; cbv beta; apply _)
                         : ∀ a b c, Decision (P a b c)) in
      apply (range3_decide P dec n k j); vm_compute; reflexivity
  | |- ∀ a b, (a < ?n)%nat → (b < ?k)%nat → @?P a b =>
      let dec := constr:(ltac:(intros; cbv beta; apply _)
                         : ∀ a b, Decision (P a b)) in
      apply (range2_decide P dec n k); vm_compute; reflexivity
  | |- ∀ a, (a < ?n)%nat → @?P a =>
      let dec := constr:(ltac:(intros; cbv beta; apply _)
                         : ∀ a, Decision (P a)) in
      apply (range1_decide n P dec); vm_compute; reflexivity
  end.

(** Settles a closed Boolean check on the built models. *)
Ltac run_check := vm_compute; reflexivity.

(** ** The build succeeds *)

(** Lines 12-67 run to their end: no dictionary read raises. *)
Lemma build_constraints_runs :
  build_constraints empty_model = Some (main_shifts, main_model).
Proof.
  assert (is_Some (build_constraints empty_model)) as [[sh m] E].
  { apply (bool_decide_eq_true_1 _). run_check. }
  unfold main_shifts, main_model, model_of. rewrite E. reflexivity.
Qed.

(** Every key of the grid is in the dictionary, bound to its variable. *)
Lemma main_shifts_lookup (p d s : nat) :
  (p < num_physicians)%nat → (d < num_days)%nat → (s < num_shifts)%nat →
  main_shifts !! (p, d, s) = Some (grid_var p d s).
Proof. revert p d s. check_ranges. Qed.

(** ... and the variable is declared in the model, with domain [0, 1]. *)
Lemma grid_var_declared (p d s : nat) :
  (p < num_physicians)%nat → (d < num_days)%nat → (s < num_shifts)%nat →
  grid_var p d s ∈ variables grid_model.
Proof. revert p d s. check_ranges. Qed.

(** ** Feasibility *)

Lemma holdsb_true sol ct : holdsb sol ct = true → holds sol ct.
Proof. destruct ct; simpl; lia. Qed.

Lemma in_domainb_true sol v : in_domainb sol v = true → in_domain sol v.
Proof. unfold in_domainb, in_domain. lia. Qed.

Lemma feasibleb_true sol m : feasibleb sol m = true → feasible sol m.
Proof.
  unfold feasibleb, feasible. rewrite andb_true_iff, !forallb_forall.
  intros [Hv Hc]. split; apply Forall_forall; intros x Hx%list_elem_of_In.
  - apply in_domainb_true; auto.
  - apply holdsb_true; auto.
Qed.

Lemma includes_refl m : includes m m.
Proof. split; reflexivity. Qed.

Lemma feasible_includes sol m0 m :
  includes m0 m → feasible sol m → feasible sol m0.
Proof.
  intros [Hv Hc] [Fv Fc]. rewrite Forall_forall in Fv. rewrite Forall_forall in Fc.
  split; apply Forall_forall; auto.
Qed.

Lemma feasible_constraint sol m ct :
  feasible sol m → ct ∈ constraints m → holds sol ct.
Proof. intros [_ Fc] Hct. rewrite Forall_forall in Fc. auto. Qed.

(** ** Sums *)

Lemma eval_fold_left_LAdd sol l acc :
  eval sol (fold_left LAdd l acc) = eval sol acc + sumZ (eval sol <$> l).
Proof.
  unfold sumZ. revert acc. induction l as [|e l IH]; intros acc; cbn.
  - lia.
  - rewrite IH. cbn. lia.
Qed.

Lemma eval_py_sum sol l : eval sol (py_sum l) = sumZ (eval sol <$> l).
Proof. unfold py_sum. rewrite eval_fold_left_LAdd. cbn. lia. Qed.

Lemma eval_py_sum_vars sol {A} (f : A → IntVar) (l : list A) :
  eval sol (py_sum ((λ x, LVar (f x)) <$> l)) = sumZ ((λ x, Value sol (f x)) <$> l).
Proof. rewrite eval_py_sum, <- list_fmap_compose. reflexivity. Qed.

Lemma sumZ_nonneg (l : list Z) : Forall (λ x, 0 ≤ x) l → 0 ≤ sumZ l.
Proof. induction 1; simpl; lia. Qed.

Lemma sumZ_elem_le (l : list Z) x :
  Forall (λ y, 0 ≤ y) l → x ∈ l → x ≤ sumZ l.
Proof.
  induction 1 as [|y l Hy Hl IH]; intros Hx.
  - by apply elem_of_nil in Hx.
  - apply elem_of_cons in Hx as [->|Hx]; simpl.
    + pose proof (sumZ_nonneg l Hl). lia.
    + specialize (IH Hx). lia.
Qed.

Lemma sumZ_zero (l : list Z) : Forall (λ x, x = 0) l → sumZ l = 0.
Proof. induction 1; simpl; lia. Qed.

(** A sum of 0/1 values counts the ones. *)
Lemma sumZ_count {A} (f : A → Z) (l : list A) :
  Forall (λ x, 0 ≤ f x ≤ 1) l →
  sumZ (f <$> l) = Z.of_nat (length (filter (λ x, f x = 1) l)).
Proof.
  induction 1 as [|x l Hx Hl IH]; [reflexivity|].
  rewrite fmap_cons, filter_cons. simpl sumZ. rewrite IH.
  destruct (decide (f x = 1)); simpl length; lia.
Qed.

(** ** The grid's domain *)

Lemma grid_model_variables :
  variables coverage_model = variables grid_model ∧
  variables rest_model = variables grid_model ∧
  variables fairness_model = variables grid_model ∧
  variables senior_model = variables grid_model ∧
  variables weekend_model = variables grid_model ∧
  variables main_model = variables grid_model.
Proof. do 5 (split; [run_check|]). run_check. Qed.

Lemma assignment_bool sol m p d s :
  declares_grid m → feasible sol m →
  (p < num_physicians)%nat → (d < num_days)%nat → (s < num_shifts)%nat →
  0 ≤ assignment sol p d s ≤ 1.
Proof.
  intros Hg [Fv _] Hp Hd Hs. rewrite Forall_forall in Fv.
  apply (Fv (grid_var p d s)), Hg, grid_var_declared; done.
Qed.

(** ** The model of [main] holds each rule family *)

Lemma includesb_true m0 m : includesb m0 m = true → includes m0 m.
Proof.
  unfold includesb, includes. rewrite andb_true_iff, !forallb_forall.
  intros [Hv Hc].
  split; intros x Hx%list_elem_of_In; eapply bool_decide_eq_true_1; eauto.
Qed.

Lemma main_includes_coverage : includes coverage_model main_model.
Proof. apply includesb_true. run_check. Qed.

Lemma main_includes_rest : includes rest_model main_model.
Proof. apply includesb_true. run_check. Qed.

Lemma main_includes_fairness : includes fairness_model main_model.
Proof. apply includesb_true. run_check. Qed.

Lemma main_includes_senior : includes senior_model main_model.
Proof. apply includesb_true. run_check. Qed.

Lemma main_includes_weekend : includes weekend_model main_model.
Proof. apply includesb_true. run_check. Qed.

(** The constraints of [main]'s model are those of the five families, in the
    order of the source. *)
Lemma main_constraints_in_order :
  constraints main_model
  = constraints coverage_model ++ constraints rest_model ++
    constraints fairness_model ++ constraints senior_model ++
    constraints weekend_model.
Proof. run_check. Qed.

(** ** Coverage (lines 24-32) *)

Lemma eval_staff_expr sol d s :
  eval sol (staff_expr d s) = sumZ ((λ p, assignment sol p d s) <$> all_physicians).
Proof. apply eval_py_sum_vars. Qed.

Lemma coverage_posted (d s : nat) :
  (d < num_days)%nat → (s < num_shifts)%nat →
  BGe (staff_expr d s) (LConst 1) ∈ constraints coverage_model.
Proof. revert d s. check_ranges. Qed.

Lemma peak_coverage_posted (d s : nat) :
  (d < num_days)%nat → (s < 2)%nat →
  BGe (staff_expr d s) (LConst 2) ∈ constraints coverage_model.
Proof. revert d s. check_ranges. Qed.

Lemma staffing_sum sol m d s :
  declares_grid m → feasible sol m →
  (d < num_days)%nat → (s < num_shifts)%nat →
  eval sol (staff_expr d s) = Z.of_nat (staffing sol d s).
Proof.
  intros Hg Hf Hd Hs. rewrite eval_staff_expr. unfold staffing.
  apply (sumZ_count (λ p, assignment sol p d s)).
  apply Forall_forall. intros p Hp%elem_of_seq.
  apply (assignment_bool sol m); try done. unfold num_physicians in *; lia.
Qed.

Lemma includes_declares_grid m0 m :
  variables m0 = variables grid_model → includes m0 m → declares_grid m.
Proof. intros E [Hv _]. unfold declares_grid. by rewrite <- E. Qed.

Lemma all_hands_feasible : feasible all_hands coverage_model.
Proof. apply feasibleb_true. run_check. Qed.

(** C2. The model [main] builds holds the coverage constraints of lines
    24-32, and in every model that holds them together with the grid a
    feasible solution staffs every shift of every day with at least one
    physician, and the peak shifts 0 and 1 with at least two. *)
Theorem coverage_enforced (sol : nat → Z) (m : CpModel) (d s : nat) :
  includes coverage_model m → feasible sol m →
  (d < num_days)%nat → (s < num_shifts)%nat →
  includes coverage_model main_model ∧
  (1 ≤ staffing sol d s)%nat ∧ ((s < 2)%nat → (2 ≤ staffing sol d s)%nat).
Proof.
  intros Hinc Hf Hd Hs. split; [exact main_includes_coverage|].
  assert (declares_grid m) as Hg
    by (apply (includes_declares_grid coverage_model);
        [apply (proj1 grid_model_variables)|done]).
  pose proof (staffing_sum sol m d s Hg Hf Hd Hs) as Hsum.
  split.
  - pose proof (feasible_constraint sol m _ Hf
      (proj2 Hinc _ (coverage_posted d s Hd Hs))) as H1.
    change (1 ≤ eval sol (staff_expr d s)) in H1. rewrite Hsum in H1.
    clear -H1. lia.
  - intros Hpeak.
    pose proof (feasible_constraint sol m _ Hf
      (proj2 Hinc _ (peak_coverage_posted d s Hd Hpeak))) as H2.
    change (2 ≤ eval sol (staff_expr d s)) in H2. rewrite Hsum in H2.
    clear -H2. lia.
Qed.

Lemma coverage_enforced_witness :
  feasible all_hands coverage_model ∧
  (1 ≤ staffing all_hands 0 0)%nat ∧ (2 ≤ staffing all_hands 0 0)%nat.
Proof.
  split; [exact all_hands_feasible|].
  destruct (coverage_enforced all_hands coverage_model 0 0) as (_ & H1 & H2).
  - apply includes_refl.
  - exact all_hands_feasible.
  - unfold num_days; lia.
  - unfold num_shifts; lia.
  - split; [exact H1|apply H2; lia].
Defined.

(** ** Shift length and rest (lines 34-42) *)

Lemma eval_day_expr sol p d :
  eval sol (day_expr p d) = shifts_on_day sol p d.
Proof. apply eval_py_sum_vars. Qed.

Lemma one_shift_posted (p d : nat) :
  (p < num_physicians)%nat → (d < num_days)%nat →
  BLe (day_expr p d) (LConst 1) ∈ constraints rest_model.
Proof. revert p d. check_ranges. Qed.

Lemma rest_posted (p d : nat) :
  (p < num_physicians)%nat → (d < num_days - 1)%nat →
  BLe (LAdd (LVar (grid_var p d 2)) (LVar (grid_var p ((d + 1) mod num_days) 0)))
      (LConst 1) ∈ constraints rest_model.
Proof. revert p d. check_ranges. Qed.

Lemma day_off_rests : feasible day_off rest_model.
Proof. apply feasibleb_true. run_check. Qed.

Lemma day_off_idle (p d : nat) : shifts_on_day day_off p d = 0.
Proof. reflexivity. Qed.

(** C7. The model [main] builds holds the constraints of lines 34-42, and in
    every model that holds them a feasible solution gives a physician at most
    one shift on any day.  The constraints allow a day without any shift: the
    solution that assigns nobody satisfies them. *)
Theorem one_shift_per_day (sol : nat → Z) (m : CpModel) (p d : nat) :
  includes rest_model m → feasible sol m →
  (p < num_physicians)%nat → (d < num_days)%nat →
  includes rest_model main_model ∧
  shifts_on_day sol p d ≤ 1 ∧
  (feasible day_off rest_model ∧ shifts_on_day day_off p d = 0).
Proof.
  intros Hinc Hf Hp Hd. split; [exact main_includes_rest|]. split.
  - pose proof (feasible_constraint sol m _ Hf
      (proj2 Hinc _ (one_shift_posted p d Hp Hd))) as H1.
    change (eval sol (day_expr p d) ≤ 1) in H1.
    by rewrite eval_day_expr in H1.
  - split; [exact day_off_rests|apply day_off_idle].
Qed.

(** No constraint of [main]'s model ties a physician's night shift on the
    last day to the morning shift of day 0. *)
Lemma week_boundary_unlinked (p : nat) :
  (p < num_physicians)%nat →
  Forall (λ ct, ¬ (mentions (grid_var p (num_days - 1) 2) ct ∧
                   mentions (grid_var p 0 0) ct)) (constraints main_model).
Proof. unfold mentions. revert p. check_ranges. Qed.

Lemma night_then_morning_rests (p : nat) :
  (p < num_physicians)%nat →
  feasibleb (night_then_morning p) rest_model = true ∧
  assignment (night_then_morning p) p (num_days - 1) 2 = 1 ∧
  assignment (night_then_morning p) p 0 0 = 1.
Proof. revert p. check_ranges. Qed.

(** C5. The model [main] builds holds the constraints of lines 34-42, and in
    every model that holds them a feasible solution never gives a physician
    the night shift of a day [d] before the last one together with the
    morning shift of the next day.  For the last day nothing of the kind is
    posted: no constraint of [main]'s model mentions both the last night and
    the first morning of a physician, and the rest constraints are satisfied
    by a solution that assigns both. *)
Theorem rest_between_days (sol : nat → Z) (m : CpModel) (p d : nat) :
  includes rest_model m → feasible sol m →
  (p < num_physicians)%nat → (d < num_days - 1)%nat →
  includes rest_model main_model ∧
  assignment sol p d 2 + assignment sol p ((d + 1) mod num_days) 0 ≤ 1 ∧
  Forall (λ ct, ¬ (mentions (grid_var p (num_days - 1) 2) ct ∧
                   mentions (grid_var p 0 0) ct)) (constraints main_model) ∧
  ∃ sol', feasible sol' rest_model ∧
          assignment sol' p (num_days - 1) 2 = 1 ∧ assignment sol' p 0 0 = 1.
Proof.
  intros Hinc Hf Hp Hd. split; [exact main_includes_rest|]. split; [|split].
  - exact (feasible_constraint sol m _ Hf (proj2 Hinc _ (rest_posted p d Hp Hd))).
  - apply week_boundary_unlinked, Hp.
  - exists (night_then_morning p).
    destruct (night_then_morning_rests p Hp) as (Hrest & Hnight & Hmorning).
    split; [apply feasibleb_true, Hrest|]. split; [exact Hnight|exact Hmorning].
Qed.

Lemma rest_between_days_witness :
  feasible (night_then_morning 3) rest_model ∧
  assignment (night_then_morning 3) 3 5 2
  + assignment (night_then_morning 3) 3 ((5 + 1) mod num_days) 0 ≤ 1.
Proof.
  assert (feasible (night_then_morning 3) rest_model) as Hf.
  { apply feasibleb_true, (night_then_morning_rests 3). unfold num_physicians; lia. }
  split; [exact Hf|].
  apply (rest_between_days (night_then_morning 3) rest_model 3 5).
  - apply includes_refl.
  - exact Hf.
  - unfold num_physicians; lia.
  - unfold num_days; lia.
Defined.

Lemma one_shift_per_day_witness :
  feasible (night_then_morning 3) rest_model ∧
  shifts_on_day (night_then_morning 3) 3 6 ≤ 1.
Proof.
  assert (feasible (night_then_morning 3) rest_model) as Hf.
  { apply feasibleb_true, (night_then_morning_rests 3). unfold num_physicians; lia. }
  split; [exact Hf|].
  apply (one_shift_per_day (night_then_morning 3) rest_model 3 6).
  - apply includes_refl.
  - exact Hf.
  - unfold num_physicians; lia.
  - unfold num_days; lia.
Defined.


(** ** Fairness of night shifts (lines 44-54) *)

Lemma eval_night_expr sol p :
  eval sol (night_expr p) = night_shift_count sol p.
Proof. apply eval_py_sum_vars. Qed.

Lemma fairness_posted_in_range (p1 p2 : nat) :
  (p1 < num_physicians)%nat → (p2 < num_physicians)%nat →
  (p1 < p2)%nat →
  BEq (night_expr p1) (night_expr p2) ∈ constraints fairness_model.
Proof. revert p1 p2. check_ranges. Qed.

Lemma fairness_posted (p1 p2 : nat) :
  (p1 < p2)%nat → (p2 < num_physicians)%nat →
  BEq (night_expr p1) (night_expr p2) ∈ constraints fairness_model.
Proof. intros H12 H2. apply fairness_posted_in_range; lia. Qed.

(** One equality for each of the 45 unordered pairs of physicians, and
    nothing else. *)
Lemma fairness_count :
  length (constraints fairness_model)
  = (num_physicians * (num_physicians - 1) / 2)%nat.
Proof. run_check. Qed.

Lemma one_night_each_fair : feasible one_night_each fairness_model.
Proof. apply feasibleb_true. run_check. Qed.

Lemma night_counts_equal sol m p1 p2 :
  includes fairness_model m → feasible sol m →
  (p1 < p2)%nat → (p2 < num_physicians)%nat →
  night_shift_count sol p1 = night_shift_count sol p2.
Proof.
  intros Hinc Hf H12 H2.
  pose proof (feasible_constraint sol m _ Hf
    (proj2 Hinc _ (fairness_posted p1 p2 H12 H2))) as H.
  change (eval sol (night_expr p1) = eval sol (night_expr p2)) in H.
  rewrite !eval_night_expr in H. exact H.
Qed.

(** C3. The model [main] builds holds the constraints of lines 44-54, and in
    every model that holds them a feasible solution gives any two physicians
    [p1 < p2] exactly the same number of night shifts; the equality of their
    two counts is itself one of the constraints, for every such pair (45
    equalities for 10 physicians), not only for neighbours. *)
Theorem equal_night_shifts (sol : nat → Z) (m : CpModel) (p1 p2 : nat) :
  includes fairness_model m → feasible sol m →
  (p1 < p2)%nat → (p2 < num_physicians)%nat →
  includes fairness_model main_model ∧
  night_shift_count sol p1 = night_shift_count sol p2 ∧
  BEq (night_expr p1) (night_expr p2) ∈ constraints m ∧
  length (constraints fairness_model)
  = (num_physicians * (num_physicians - 1) / 2)%nat.
Proof.
  intros Hinc Hf H12 H2.
  pose proof (proj2 Hinc _ (fairness_posted p1 p2 H12 H2)) as Hin.
  split; [exact main_includes_fairness|]. split; [|split].
  - exact (night_counts_equal sol m p1 p2 Hinc Hf H12 H2).
  - exact Hin.
  - exact fairness_count.
Qed.

Lemma equal_night_shifts_witness :
  feasible one_night_each fairness_model ∧
  night_shift_count one_night_each 2 = night_shift_count one_night_each 7 ∧
  BEq (night_expr 2) (night_expr 7) ∈ constraints fairness_model.
Proof.
  split; [exact one_night_each_fair|].
  destruct (equal_night_shifts one_night_each fairness_model 2 7)
    as (_ & H1 & H2 & _).
  - apply includes_refl.
  - exact one_night_each_fair.
  - lia.
  - unfold num_physicians; lia.
  - split; [exact H1|exact H2].
Defined.

(** ** Senior physicians (lines 56-61) *)

Lemma senior_posted (p d : nat) :
  (p = 8 ∨ p = 9)%nat → (d < num_days)%nat →
  BEq (LVar (grid_var p d 2)) (LConst 0) ∈ constraints senior_model.
Proof. intros [-> | ->]; revert d; check_ranges. Qed.

Lemma seniors_sleep_feasible : feasible seniors_sleep senior_model.
Proof. apply feasibleb_true. run_check. Qed.

(** With the seniors off at night, every other physician can still work
    every night. *)
Lemma seniors_sleep_juniors_work (q d : nat) :
  (q < num_physicians - 2)%nat → (d < num_days)%nat →
  assignment seniors_sleep q d 2 = 1.
Proof. revert q d. check_ranges. Qed.

Lemma senior_nights_off sol m p d :
  includes senior_model m → feasible sol m →
  (p = 8 ∨ p = 9)%nat → (d < num_days)%nat →
  assignment sol p d 2 = 0.
Proof.
  intros Hinc Hf Hp Hd.
  exact (feasible_constraint sol m _ Hf (proj2 Hinc _ (senior_posted p d Hp Hd))).
Qed.

(** C4. The physicians barred from night shifts are 8 and 9, the last two of
    the 10.  The model [main] builds holds the constraints of lines 56-61,
    and in every model that holds them a feasible solution gives these two no
    night shift on any day.  The rule constrains nobody else: one solution
    satisfies it while every other physician works every night. *)
Theorem seniors_excluded (sol : nat → Z) (m : CpModel) (p d : nat) :
  includes senior_model m → feasible sol m →
  (p = 8 ∨ p = 9)%nat → (d < num_days)%nat →
  includes senior_model main_model ∧
  assignment sol p d 2 = 0 ∧
  (8 = num_physicians - 2 ∧ 9 = num_physicians - 1)%nat ∧
  ∃ sol', feasible sol' senior_model ∧
    ∀ q d', (q < num_physicians - 2)%nat → (d' < num_days)%nat →
            assignment sol' q d' 2 = 1.
Proof.
  intros Hinc Hf Hp Hd. split; [exact main_includes_senior|]. split; [|split].
  - exact (senior_nights_off sol m p d Hinc Hf Hp Hd).
  - split; reflexivity.
  - exists seniors_sleep. split.
    + exact seniors_sleep_feasible.
    + exact seniors_sleep_juniors_work.
Qed.

Lemma seniors_excluded_witness :
  feasible seniors_sleep senior_model ∧ assignment seniors_sleep 9 3 2 = 0.
Proof.
  split; [exact seniors_sleep_feasible|].
  apply (seniors_excluded seniors_sleep senior_model 9 3).
  - apply includes_refl.
  - exact seniors_sleep_feasible.
  - right; reflexivity.
  - unfold num_days; lia.
Defined.

(** ** Weekend (lines 63-67) *)

Lemma weekend_posted (p s : nat) :
  (p < num_physicians)%nat → (s < num_shifts)%nat →
  BEq (LVar (grid_var p 5 s)) (LVar (grid_var p 6 s)) ∈ constraints weekend_model.
Proof. revert p s. check_ranges. Qed.

Lemma same_weekend_feasible : feasible same_weekend weekend_model.
Proof. apply feasibleb_true. run_check. Qed.

(** C6. The model [main] builds holds the constraints of lines 63-67, and in
    every model that holds them a feasible solution gives every physician the
    same assignment on day 5 (Saturday) and day 6 (Sunday), shift by shift. *)
Theorem weekend_mirrored (sol : nat → Z) (m : CpModel) (p s : nat) :
  includes weekend_model m → feasible sol m →
  (p < num_physicians)%nat → (s < num_shifts)%nat →
  includes weekend_model main_model ∧
  assignment sol p 5 s = assignment sol p 6 s.
Proof.
  intros Hinc Hf Hp Hs. split; [exact main_includes_weekend|].
  exact (feasible_constraint sol m _ Hf (proj2 Hinc _ (weekend_posted p s Hp Hs))).
Qed.

Lemma weekend_mirrored_witness :
  feasible same_weekend weekend_model ∧
  assignment same_weekend 4 5 1 = assignment same_weekend 4 6 1.
Proof.
  split; [exact same_weekend_feasible|].
  apply (weekend_mirrored same_weekend weekend_model 4 1).
  - apply includes_refl.
  - exact same_weekend_feasible.
  - unfold num_physicians; lia.
  - unfold num_shifts; lia.
Defined.

(** ** The whole model *)

Lemma main_declares_grid : declares_grid main_model.
Proof.
  apply (includes_declares_grid coverage_model).
  - apply (proj1 grid_model_variables).
  - exact main_includes_coverage.
Qed.

(** A senior physician's night count is 0. *)
Lemma senior_night_count sol m p :
  includes senior_model m → feasible sol m → (p = 8 ∨ p = 9)%nat →
  night_shift_count sol p = 0.
Proof.
  intros Hinc Hf Hp. unfold night_shift_count.
  apply sumZ_zero, Forall_fmap, Forall_forall. intros d Hd%elem_of_seq.
  apply (senior_nights_off sol m p d Hinc Hf Hp). lia.
Qed.

(** Equal night counts and two physicians barred from nights leave no night
    shift to anybody. *)
Lemma night_counts_forced sol m p :
  includes fairness_model m → includes senior_model m → feasible sol m →
  (p < num_physicians)%nat → night_shift_count sol p = 0.
Proof.
  intros Hfair Hsen Hf Hp.
  pose proof (senior_night_count sol m 8 Hsen Hf (or_introl eq_refl)) as H8.
  destruct (decide (p < 8)%nat) as [Hlt|Hge].
  - rewrite <- H8.
    apply (night_counts_equal sol m p 8 Hfair Hf Hlt). unfold num_physicians; lia.
  - apply (senior_night_count sol m p Hsen Hf).
    unfold num_physicians in Hp. lia.
Qed.

Lemma night_unassigned sol m p d :
  declares_grid m → includes fairness_model m → includes senior_model m →
  feasible sol m →
  (p < num_physicians)%nat → (d < num_days)%nat → assignment sol p d 2 = 0.
Proof.
  intros Hg Hfair Hsen Hf Hp Hd.
  pose proof (night_counts_forced sol m p Hfair Hsen Hf Hp) as Hcount.
  assert (assignment sol p d 2 ≤ night_shift_count sol p) as Hle.
  { unfold night_shift_count. apply sumZ_elem_le.
    - apply Forall_fmap, Forall_forall. intros d' Hd'%elem_of_seq.
      apply (assignment_bool sol m p d' 2 Hg Hf Hp); [lia|unfold num_shifts; lia].
    - apply (list_elem_of_fmap_2 (λ d, assignment sol p d 2)), elem_of_seq. lia. }
  pose proof (assignment_bool sol m p d 2 Hg Hf Hp Hd) as Hbool.
  assert (2 < num_shifts)%nat as H2 by (unfold num_shifts; lia).
  specialize (Hbool H2). clear -Hcount Hle Hbool.
  generalize dependent (assignment sol p d 2).
  generalize dependent (night_shift_count sol p). intros; lia.
Qed.

Lemma night_rules_include :
  includes fairness_model night_rules_model ∧
  includes senior_model night_rules_model.
Proof. split; apply includesb_true; run_check. Qed.

Lemma day_off_night_rules : feasible day_off night_rules_model.
Proof. apply feasibleb_true. run_check. Qed.

(** C1. The model [main] builds has no feasible solution.  The pairwise
    equalities of the night counts and the exclusion of physicians 8 and 9
    from night shifts force every physician's night count to 0, in every
    model that holds the two rule families; coverage asks for at least one
    physician on each day's night shift, and [main]'s model holds all
    three. *)
Theorem main_model_infeasible :
  (∀ (sol : nat → Z) (m : CpModel) (p : nat),
     includes fairness_model m → includes senior_model m → feasible sol m →
     (p < num_physicians)%nat → night_shift_count sol p = 0) ∧
  ¬ ∃ sol : nat → Z, feasible sol main_model.
Proof.
  split; [intros sol m p; apply night_counts_forced|].
  intros [sol Hf].
  assert (eval sol (staff_expr 0 2) = 0) as Hzero.
  { rewrite eval_staff_expr.
    apply sumZ_zero, Forall_fmap, Forall_forall. intros p Hp%elem_of_seq.
    apply (night_unassigned sol main_model p 0).
    - exact main_declares_grid.
    - exact main_includes_fairness.
    - exact main_includes_senior.
    - exact Hf.
    - lia.
    - unfold num_days; lia. }
  assert (1 ≤ eval sol (staff_expr 0 2)) as Hone.
  { apply (feasible_constraint sol main_model (BGe (staff_expr 0 2) (LConst 1)) Hf).
    apply (proj2 main_includes_coverage), coverage_posted.
    - unfold num_days; lia.
    - unfold num_shifts; lia. }
  rewrite Hzero in Hone. clear -Hone. lia.
Qed.

Lemma main_model_infeasible_witness :
  feasible day_off night_rules_model ∧ night_shift_count day_off 3 = 0.
Proof.
  split; [exact day_off_night_rules|].
  apply (proj1 main_model_infeasible day_off night_rules_model 3%nat).
  - exact (proj1 night_rules_include).
  - exact (proj2 night_rules_include).
  - exact day_off_night_rules.
  - unfold num_physicians; lia.
Defined.

(** ** The sum of squared differences (lines 69-77) *)

Lemma sumZ_app (l1 l2 : list Z) : sumZ (l1 ++ l2) = sumZ l1 + sumZ l2.
Proof. unfold sumZ. induction l1 as [|x l1 IH]; cbn; [|rewrite IH]; lia. Qed.

Lemma sumZ_ext {A} (f g : A → Z) (l : list A) :
  (∀ x, x ∈ l → f x = g x) → sumZ (f <$> l) = sumZ (g <$> l).
Proof.
  intros H. f_equal. apply list_fmap_ext. intros i x Hx.
  apply H. eapply list_elem_of_lookup_2, Hx.
Qed.

Lemma sumZ_bind {A B} (f : B → Z) (g : A → list B) (l : list A) :
  sumZ (f <$> (l ≫= g)) = sumZ ((λ x, sumZ (f <$> g x)) <$> l).
Proof.
  induction l as [|x l IH]; [reflexivity|].
  rewrite bind_cons, fmap_app, sumZ_app, IH. reflexivity.
Qed.

(** Summing over the later indices only is summing over all of them with the
    test [p1 < p2]. *)
Lemma sumZ_guard (g : nat → Z) (p1 n : nat) :
  (p1 < n)%nat →
  sumZ ((λ p2, if (p1 <? p2)%nat then g p2 else 0) <$> seq 0 n)
  = sumZ (g <$> seq (S p1) (n - S p1)).
Proof.
  intros Hp1.
  replace n with (S p1 + (n - S p1))%nat at 1 by lia.
  rewrite seq_app, fmap_app, sumZ_app.
  rewrite (sumZ_zero ((λ p2, if (p1 <? p2)%nat then g p2 else 0) <$> seq 0 (S p1))).
  - rewrite Z.add_0_l. apply sumZ_ext. intros p2 Hp2%elem_of_seq.
    destruct (Nat.ltb_spec p1 p2); [reflexivity|lia].
  - apply Forall_fmap, Forall_forall. intros p2 Hp2%elem_of_seq. simpl.
    destruct (Nat.ltb_spec p1 p2); [lia|reflexivity].
Qed.

Lemma sumZ_singleton {A} (f : A → Z) (x : A) : sumZ (f <$> [x]) = f x.
Proof. cbn. lia. Qed.

(** The generator of the pairs [p1 < p2] visits each unordered pair once. *)
Lemma sumZ_pairs (G : nat → nat → Z) (n : nat) :
  sumZ ((λ pp, G pp.1 pp.2) <$>
        (seq 0 n ≫= λ p1, seq 0 n ≫= λ p2,
           if (p1 <? p2)%nat then [(p1, p2)] else []))
  = sumZ ((λ p1, sumZ (G p1 <$> seq (S p1) (n - S p1))) <$> seq 0 n).
Proof.
  rewrite sumZ_bind. apply sumZ_ext. intros p1 Hp1%elem_of_seq.
  rewrite sumZ_bind, <- (sumZ_guard (G p1)) by lia.
  apply sumZ_ext. intros p2 _.
  destruct (p1 <? p2)%nat; [apply (sumZ_singleton (λ pp, G pp.1 pp.2))|reflexivity].
Qed.

Lemma eval_total_expr sol p :
  eval sol (total_expr p) = total_shift_count sol p.
Proof.
  unfold total_expr, total_shift_count, day_shift_pairs.
  rewrite eval_py_sum, <- list_fmap_compose.
  rewrite (sumZ_ext _ (λ ds, assignment sol p ds.1 ds.2)) by (by intros [d s] _).
  rewrite sumZ_bind. apply sumZ_ext. intros d _.
  rewrite sumZ_bind. apply sumZ_ext. intros s _.
  apply (sumZ_singleton (λ ds, assignment sol p ds.1 ds.2)).
Qed.

Lemma eval_LSub sol a b : eval sol (LSub a b) = eval sol a - eval sol b.
Proof. reflexivity. Qed.

Lemma eval_LMul sol a b : eval sol (LMul a b) = eval sol a * eval sol b.
Proof. reflexivity. Qed.

Lemma eval_squared_difference sol p1 p2 :
  eval sol (LMul (LSub (total_expr p1) (total_expr p2))
                 (LSub (total_expr p1) (total_expr p2)))
  = (total_shift_count sol p1 - total_shift_count sol p2) ^ 2.
Proof. rewrite eval_LMul, eval_LSub, !eval_total_expr. symmetry. apply Z.pow_2_r. Qed.

Lemma eval_objective_expr sol :
  eval sol objective_expr
  = pairwise_squared_differences (total_shift_count sol) num_physicians.
Proof.
  unfold objective_expr, pairwise_squared_differences, physician_pairs.
  rewrite eval_py_sum, <- list_fmap_compose.
  rewrite (sumZ_ext _ (λ pp,
    (total_shift_count sol pp.1 - total_shift_count sol pp.2) ^ 2)).
  - apply (sumZ_pairs (λ p1 p2,
      (total_shift_count sol p1 - total_shift_count sol p2) ^ 2)).
  - intros [p1 p2] _. apply eval_squared_difference.
Qed.

(** ** Printing the result (lines 83-96) *)

Lemma emits_print text end_ : emits (print text end_) [Printed (text +:+ end_)].
Proof. intros tr. reflexivity. Qed.

Lemma emits_skip : emits (mret tt) [].
Proof. intros tr. unfold mret, Stateful_ret. by rewrite app_nil_r. Qed.

Lemma emits_seq (c1 c2 : Run unit) out1 out2 :
  emits c1 out1 → emits c2 out2 → emits (c1 ;; c2) (out1 ++ out2).
Proof.
  intros H1 H2 tr. unfold mbind, Stateful_bind.
  rewrite H1, H2, app_assoc. reflexivity.
Qed.

Lemma emits_for_each {A} (l : list A) (body : A → Run unit) (out : A → list Event) :
  (∀ x, x ∈ l → emits (body x) (out x)) → emits (for_each l body) (l ≫= out).
Proof.
  induction l as [|x l IH]; intros Hbody.
  - apply emits_skip.
  - rewrite bind_cons. apply emits_seq.
    + apply Hbody, elem_of_cons. by left.
    + apply IH. intros y Hy. apply Hbody, elem_of_cons. by right.
Qed.

Create HintDb emits.
#[local] Hint Resolve emits_print emits_skip emits_seq emits_for_each : emits.

Lemma emits_physician sol d s p :
  (p < num_physicians)%nat → (d < num_days)%nat → (s < num_shifts)%nat →
  emits (v ← lift (main_shifts !! (p, d, s));
         x ← solver_Value sol v;
         if x =? 1 then print ("P" +:+ pretty (p + 1)%nat) " " else mret tt)
        (physician_trace sol d s p).
Proof.
  intros Hp Hd Hs tr. unfold mbind, Stateful_bind, lift, solver_Value.
  rewrite (main_shifts_lookup p d s Hp Hd Hs).
  unfold physician_trace, assignment.
  destruct (Value sol (grid_var p d s) =? 1).
  - rewrite emits_print, <- app_assoc. reflexivity.
  - rewrite emits_skip, app_nil_r. reflexivity.
Qed.

Lemma emits_shift sol d s :
  (d < num_days)%nat → (s < num_shifts)%nat →
  emits (print ("  Shift " +:+ pretty (s + 1)%nat +:+ ":") " ";;
         for_each all_physicians (λ p,
           v ← lift (main_shifts !! (p, d, s));
           x ← solver_Value sol v;
           if x =? 1 then print ("P" +:+ pretty (p + 1)%nat) " " else mret tt);;
         print "" newline)
        (shift_trace sol d s).
Proof.
  intros Hd Hs. unfold shift_trace.
  assert (∀ p, p ∈ all_physicians →
            emits (v ← lift (main_shifts !! (p, d, s));
                   x ← solver_Value sol v;
                   if x =? 1 then print ("P" +:+ pretty (p + 1)%nat) " "
                   else mret tt)
                  (physician_trace sol d s p)) as Hbody.
  { intros p Hp%elem_of_seq. apply emits_physician; [lia|done|done]. }
  auto with emits.
Qed.

Lemma emits_day sol d :
  (d < num_days)%nat →
  emits (print ("Day " +:+ pretty (d + 1)%nat +:+ ":") newline;;
         for_each all_shifts (λ s,
           print ("  Shift " +:+ pretty (s + 1)%nat +:+ ":") " ";;
           for_each all_physicians (λ p,
             v ← lift (main_shifts !! (p, d, s));
             x ← solver_Value sol v;
             if x =? 1 then print ("P" +:+ pretty (p + 1)%nat) " " else mret tt);;
           print "" newline);;
         print "" newline)
        (day_trace sol d).
Proof.
  intros Hd. unfold day_trace.
  apply emits_seq; [apply emits_print|].
  apply emits_seq; [|apply emits_print].
  apply emits_for_each. intros s Hs%elem_of_seq.
  apply emits_shift; [done|lia].
Qed.

Lemma emits_solution sol status :
  status = OPTIMAL ∨ status = FEASIBLE →
  emits (print_solution main_shifts sol status) (solution_trace sol).
Proof.
  intros Hst. unfold print_solution, solution_trace.
  assert (bool_decide (status = OPTIMAL) || bool_decide (status = FEASIBLE) = true)
    as -> by (destruct Hst as [-> | ->]; reflexivity).
  apply emits_seq; [apply emits_print|].
  apply emits_for_each. intros d Hd%elem_of_seq.
  apply emits_day. lia.
Qed.

(** *** The text written *)

Lemma string_app_assoc (a b c : string) : (a +:+ b) +:+ c = a +:+ (b +:+ c).
Proof.
  induction a as [|ch a IH]; [reflexivity|].
  change (String ch ((a +:+ b) +:+ c) = String ch (a +:+ (b +:+ c))).
  by rewrite IH.
Qed.

Lemma string_app_nil_r (a : string) : a +:+ "" = a.
Proof.
  induction a as [|ch a IH]; [reflexivity|].
  change (String ch (a +:+ "") = String ch a). by rewrite IH.
Qed.

Lemma stdout_app (tr1 tr2 : list Event) :
  stdout (tr1 ++ tr2) = stdout tr1 +:+ stdout tr2.
Proof.
  induction tr1 as [|[text|v] tr1 IH]; [reflexivity| |exact IH].
  change (text +:+ stdout (tr1 ++ tr2) = (text +:+ stdout tr1) +:+ stdout tr2).
  rewrite IH, string_app_assoc. reflexivity.
Qed.

Lemma stdout_printed (text : string) : stdout [Printed text] = text.
Proof. apply string_app_nil_r. Qed.

Lemma stdout_bind {A} (f : A → list Event) (l : list A) :
  stdout (l ≫= f) = concat_strings ((λ x, stdout (f x)) <$> l).
Proof.
  induction l as [|x l IH]; [reflexivity|].
  rewrite bind_cons, stdout_app, IH. reflexivity.
Qed.

Lemma concat_strings_ext {A} (f g : A → string) (l : list A) :
  (∀ x, f x = g x) → concat_strings (f <$> l) = concat_strings (g <$> l).
Proof. intros H. f_equal. apply list_fmap_ext. intros i x _. apply H. Qed.

Lemma stdout_physicians sol d s (l : list nat) :
  stdout (l ≫= physician_trace sol d s)
  = concat_strings (render_physician <$>
      ((λ p, (p + 1)%nat) <$> filter (λ p, assignment sol p d s = 1) l)).
Proof.
  induction l as [|p l IH]; [reflexivity|].
  rewrite bind_cons, stdout_app, IH, filter_cons.
  unfold physician_trace at 1.
  destruct (Z.eqb_spec (assignment sol p d s) 1) as [E|E].
  - rewrite decide_True by exact E. rewrite !fmap_cons.
    change (stdout [ValueRead (grid_var p d s);
                    Printed (("P" +:+ pretty (p + 1)%nat) +:+ " ")])
      with (stdout [Printed (("P" +:+ pretty (p + 1)%nat) +:+ " ")]).
    rewrite stdout_printed, (string_app_assoc "P"). reflexivity.
  - rewrite decide_False by exact E. reflexivity.
Qed.

Lemma stdout_shift sol d s :
  stdout (shift_trace sol d s)
  = render_shift ((s + 1)%nat, (λ p, (p + 1)%nat) <$> assigned_physicians sol d s).
Proof.
  unfold shift_trace, render_shift, assigned_physicians.
  rewrite !stdout_app, !stdout_printed, stdout_physicians.
  cbn [fst snd]. rewrite !string_app_assoc. reflexivity.
Qed.

Lemma stdout_day sol d :
  stdout (day_trace sol d)
  = render_day ((d + 1)%nat,
      (λ s, ((s + 1)%nat, (λ p, (p + 1)%nat) <$> assigned_physicians sol d s))
        <$> all_shifts).
Proof.
  unfold day_trace, render_day.
  rewrite !stdout_app, !stdout_printed, stdout_bind.
  cbn [fst snd]. rewrite <- list_fmap_compose.
  rewrite (concat_strings_ext _ _ all_shifts (stdout_shift sol d)).
  rewrite !string_app_assoc. reflexivity.
Qed.

Lemma stdout_solution sol : stdout (solution_trace sol) = render (schedule sol).
Proof.
  unfold solution_trace, render, schedule.
  rewrite stdout_app, stdout_printed, stdout_bind, <- list_fmap_compose.
  rewrite (concat_strings_ext _ _ all_days (stdout_day sol)).
  rewrite !string_app_assoc. reflexivity.
Qed.

(** *** The structure of the report *)

Lemma StronglySorted_seq (j n : nat) : StronglySorted lt (seq j n).
Proof.
  revert j. induction n as [|n IH]; intros j; [constructor|].
  constructor; [apply IH|].
  apply Forall_forall. intros k Hk%elem_of_seq. lia.
Qed.

Lemma StronglySorted_filter {A} (R : relation A) (P : A → Prop)
    `{!∀ x, Decision (P x)} (l : list A) :
  StronglySorted R l → StronglySorted R (filter P l).
Proof.
  induction 1 as [|x l Hl IH Hx]; [constructor|].
  rewrite filter_cons. destruct (decide (P x)); [|exact IH].
  constructor; [exact IH|].
  apply Forall_forall. intros y [_ Hy]%list_elem_of_filter.
  rewrite Forall_forall in Hx. by apply Hx.
Qed.

Lemma schedule_entry sol d s :
  (d < num_days)%nat → (s < num_shifts)%nat →
  ∃ rows ps,
    schedule sol !! d = Some ((d + 1)%nat, rows) ∧
    rows !! s = Some ((s + 1)%nat, ps) ∧
    StronglySorted lt ps ∧
    ∀ p, (p + 1)%nat ∈ ps ↔ (p < num_physicians)%nat ∧ assignment sol p d s = 1.
Proof.
  intros Hd Hs.
  exists ((λ s, ((s + 1)%nat, (λ p, (p + 1)%nat) <$> assigned_physicians sol d s))
            <$> all_shifts),
         ((λ p, (p + 1)%nat) <$> assigned_physicians sol d s).
  split; [|split; [|split]].
  - unfold schedule, all_days.
    rewrite list_lookup_fmap, lookup_seq_lt by exact Hd. reflexivity.
  - unfold all_shifts.
    rewrite list_lookup_fmap, lookup_seq_lt by exact Hs. reflexivity.
  - apply (StronglySorted_fmap _ lt lt); [intros; lia|].
    apply StronglySorted_filter, StronglySorted_seq.
  - intros p. unfold assigned_physicians, all_physicians.
    rewrite list_elem_of_fmap. split.
    + intros (q & Hq & [Hone Hin%elem_of_seq]%list_elem_of_filter).
      assert (q = p) as -> by lia. split; [lia|exact Hone].
    + intros [Hp Hone]. exists p. split; [reflexivity|].
      apply list_elem_of_filter. split; [exact Hone|]. apply elem_of_seq. lia.
Qed.

Lemma value_reads_app (tr1 tr2 : list Event) :
  value_reads (tr1 ++ tr2) = value_reads tr1 ++ value_reads tr2.
Proof.
  induction tr1 as [|[text|v] tr1 IH]; [reflexivity|exact IH|].
  change (v :: value_reads (tr1 ++ tr2) = v :: value_reads tr1 ++ value_reads tr2).
  by rewrite IH.
Qed.

(** C9. On every status other than OPTIMAL and FEASIBLE (INFEASIBLE, UNKNOWN,
    MODEL_INVALID) the printing code returns normally after writing the single
    line "No solution found." and asks the solver for no variable's value,
    whatever the dictionary and the solver's values are. *)
Theorem no_solution_reported (shifts : grid) (sol : nat → Z)
    (status : CpSolverStatus) (tr : list Event) :
  status ≠ OPTIMAL → status ≠ FEASIBLE →
  print_solution shifts sol status tr
    = Some (tt, tr ++ [Printed ("No solution found." +:+ newline)]) ∧
  value_reads (tr ++ [Printed ("No solution found." +:+ newline)])
    = value_reads tr.
Proof.
  intros Hopt Hfeas. split.
  - unfold print_solution.
    rewrite (bool_decide_eq_false_2 _ Hopt), (bool_decide_eq_false_2 _ Hfeas).
    reflexivity.
  - rewrite value_reads_app. apply app_nil_r.
Qed.

Lemma no_solution_reported_witness :
  print_solution main_shifts day_off INFEASIBLE []
    = Some (tt, [Printed ("No solution found." +:+ newline)]).
Proof.
  apply (no_solution_reported main_shifts day_off INFEASIBLE []).
  - discriminate.
  - discriminate.
Defined.

(** C10. On status OPTIMAL or FEASIBLE, for every valuation of the grid, the
    printing code returns normally and the text it writes is the rendering of
    the schedule: position [d] holds day [d + 1], in it position [s] holds
    shift [s + 1], whose physician list is strictly ascending and holds
    [p + 1] exactly for the physicians [p] whose variable has value 1. *)
Theorem solution_report (sol : nat → Z) (status : CpSolverStatus) :
  status = OPTIMAL ∨ status = FEASIBLE →
  ∃ tr,
    print_solution main_shifts sol status [] = Some (tt, tr) ∧
    stdout tr = render (schedule sol) ∧
    ∀ d s, (d < num_days)%nat → (s < num_shifts)%nat →
      ∃ rows ps,
        schedule sol !! d = Some ((d + 1)%nat, rows) ∧
        rows !! s = Some ((s + 1)%nat, ps) ∧
        StronglySorted lt ps ∧
        ∀ p, (p + 1)%nat ∈ ps ↔
             (p < num_physicians)%nat ∧ assignment sol p d s = 1.
Proof.
  intros Hst. exists (solution_trace sol). split; [|split].
  - apply (emits_solution sol status Hst []).
  - apply stdout_solution.
  - apply schedule_entry.
Qed.

Lemma solution_report_witness :
  ∃ tr,
    print_solution main_shifts two_mornings OPTIMAL [] = Some (tt, tr) ∧
    stdout tr = render (schedule two_mornings).
Proof.
  destruct (solution_report two_mornings OPTIMAL) as (tr & Hrun & Hout & _).
  - left; reflexivity.
  - exists tr. split; [exact Hrun|exact Hout].
Defined.

(** * Further properties *)

(** ** The dictionary of variables (lines 16-20) *)

Lemma elem_of_grid_cells (p d s : nat) : (p, d, s) ∈ grid_cells ↔ in_grid p d s.
Proof.
  unfold grid_cells, in_grid, all_physicians, all_days, all_shifts. split.
  - intros (p' & Hin & Hp%elem_of_seq)%list_elem_of_bind.
    apply list_elem_of_bind in Hin as (d' & Hin & Hd%elem_of_seq).
    apply list_elem_of_bind in Hin as (s' & Hin & Hs%elem_of_seq).
    apply list_elem_of_singleton in Hin. injection Hin as -> -> ->. lia.
  - intros (Hp & Hd & Hs).
    apply list_elem_of_bind. exists p. split; [|apply elem_of_seq; lia].
    apply list_elem_of_bind. exists d. split; [|apply elem_of_seq; lia].
    apply list_elem_of_bind. exists s. split; [|apply elem_of_seq; lia].
    apply list_elem_of_singleton. reflexivity.
Qed.

Lemma main_shifts_as_list :
  main_shifts
  = list_to_map ((λ k, (k, grid_var k.1.1 k.1.2 k.2)) <$> grid_cells).
Proof. apply (bool_decide_eq_true_1 _). run_check. Qed.

Lemma main_shifts_size :
  size main_shifts = (num_physicians * num_days * num_shifts)%nat.
Proof. run_check. Qed.

(** X1. After lines 16-20 the dictionary [shifts] holds exactly the keys
    [(p, d, s)] with [p < 10], [d < 7] and [s < 3], each bound to the variable
    created for it, 210 entries in all; any other key is missing, so that
    reading it would raise. *)
Theorem shifts_holds_exactly_the_grid (p d s : nat) :
  main_shifts !! (p, d, s)
  = (if bool_decide (in_grid p d s) then Some (grid_var p d s) else None) ∧
  size main_shifts = (num_physicians * num_days * num_shifts)%nat.
Proof.
  split; [|exact main_shifts_size].
  destruct (bool_decide_reflect (in_grid p d s)) as [(Hp & Hd & Hs)|Hout].
  - exact (main_shifts_lookup p d s Hp Hd Hs).
  - rewrite main_shifts_as_list. apply not_elem_of_list_to_map_1.
    rewrite <- list_fmap_compose.
    intros (k & Hk & Hin)%list_elem_of_fmap.
    destruct k as [[p' d'] s']. simpl in Hk. injection Hk as <- <- <-.
    apply Hout, elem_of_grid_cells, Hin.
Qed.







(** ** The rule families on an arbitrary model (lines 24-77) *)

Lemma add_all_nil m : add_all [] m = m.
Proof. destruct m. unfold add_all. simpl. by rewrite app_nil_r. Qed.

Lemma add_all_app cts1 cts2 m :
  add_all cts2 (add_all cts1 m) = add_all (cts1 ++ cts2) m.
Proof. unfold add_all. simpl. by rewrite app_assoc. Qed.

Lemma posts_ret {A} (x : A) : posts (mret x) x [].
Proof. intros m. unfold mret, Stateful_ret. by rewrite add_all_nil. Qed.

Lemma posts_lift {A} (o : option A) (x : A) : o = Some x → posts (lift o) x [].
Proof. intros -> m. unfold lift. by rewrite add_all_nil. Qed.

Lemma posts_Add ct : posts (Add ct) tt [ct].
Proof. intros m. reflexivity. Qed.

Lemma posts_bind {A B} (c : Build A) (f : A → Build B) x y cts1 cts2 :
  posts c x cts1 → posts (f x) y cts2 → posts (c ≫= f) y (cts1 ++ cts2).
Proof.
  intros H1 H2 m. unfold mbind, Stateful_bind.
  rewrite H1, H2, add_all_app. reflexivity.
Qed.

Lemma posts_for_each {A} (l : list A) (body : A → Build unit)
    (out : A → list BoundedLinearExpression) :
  (∀ x, x ∈ l → posts (body x) tt (out x)) →
  posts (for_each l body) tt (l ≫= out).
Proof.
  induction l as [|x l IH]; intros Hbody.
  - apply posts_ret.
  - rewrite bind_cons. apply (posts_bind _ _ tt).
    + apply Hbody, elem_of_cons. by left.
    + apply IH. intros y Hy. apply Hbody, elem_of_cons. by right.
Qed.

(** A loop that only fills a dictionary posts nothing. *)
Lemma posts_for_acc {A D} (l : list A) (body : A → D → Build D) (g : D → A → D) :
  (∀ x acc, x ∈ l → posts (body x acc) (g acc x) []) →
  ∀ acc, posts (for_acc l body acc) (fold_left g l acc) [].
Proof.
  induction l as [|x l IH]; intros Hbody acc.
  - apply posts_ret.
  - change (posts (body x acc ≫= λ acc', for_acc l body acc')
              (fold_left g l (g acc x)) ([] ++ [])).
    apply (posts_bind _ _ (g acc x)).
    + apply Hbody, elem_of_cons. by left.
    + apply IH. intros y acc' Hy. apply Hbody, elem_of_cons. by right.
Qed.

(** The dictionary reads of the rule families, resolved. *)
Lemma shift_var_lookup (p d s : nat) :
  (p < num_physicians)%nat → (d < num_days)%nat → (s < num_shifts)%nat →
  shift_var main_shifts p d s = Some (LVar (grid_var p d s)).
Proof.
  intros Hp Hd Hs. unfold shift_var.
  by rewrite (main_shifts_lookup p d s Hp Hd Hs).
Qed.

Lemma staff_sum_lookup (d s : nat) :
  (d < num_days)%nat → (s < num_shifts)%nat →
  sum_gen (λ p, shift_var main_shifts p d s) all_physicians = Some (staff_expr d s).
Proof. revert d s. check_ranges. Qed.

Lemma day_sum_lookup (p d : nat) :
  (p < num_physicians)%nat → (d < num_days)%nat →
  sum_gen (λ s, shift_var main_shifts p d s) all_shifts = Some (day_expr p d).
Proof. revert p d. check_ranges. Qed.

Lemma night_sum_lookup (p : nat) :
  (p < num_physicians)%nat →
  sum_gen (λ d, shift_var main_shifts p d 2) all_days = Some (night_expr p).
Proof. revert p. check_ranges. Qed.

Lemma total_sum_lookup (p : nat) :
  (p < num_physicians)%nat →
  sum_gen (λ '(d, s), shift_var main_shifts p d s) day_shift_pairs
  = Some (total_expr p).
Proof. revert p. check_ranges. Qed.

Lemma night_shifts_lookup (p : nat) :
  (p < num_physicians)%nat → night_shifts_dict !! p = Some (night_expr p).
Proof. revert p. check_ranges. Qed.

(** The generator of lines 76-77 with the product of values for [*] ... *)
Lemma squared_differences_lookup :
  sum_gen (λ '(p1, p2),
    t1 ← total_shifts_dict !! p1;
    t2 ← total_shifts_dict !! p2;
    Some (LMul (LSub t1 t2) (LSub t1 t2))) physician_pairs
  = Some objective_expr.
Proof. apply (bool_decide_eq_true_1 _). run_check. Qed.

(** ... and with the operator as it is: the first product raises. *)
Lemma squared_differences_raise :
  sum_gen (λ '(p1, p2),
    t1 ← total_shifts_dict !! p1;
    t2 ← total_shifts_dict !! p2;
    expr_mul (LSub t1 t2) (LSub t1 t2)) physician_pairs
  = None.
Proof. apply (bool_decide_eq_true_1 _). run_check. Qed.

Lemma posts_eq {A} (c : Build A) x cts cts' :
  cts = cts' → posts c x cts → posts c x cts'.
Proof. by intros ->. Qed.

Lemma posts_read_then_add {A} (o : option A) (x : A)
    (ct : A → BoundedLinearExpression) :
  o = Some x → posts (e ← lift o; Add (ct e)) tt [ct x].
Proof.
  intros Ho. apply (posts_bind _ _ x tt [] [ct x]).
  - by apply posts_lift.
  - apply posts_Add.
Qed.

Lemma posts_coverage :
  posts (add_coverage main_shifts) tt (constraints coverage_model).
Proof.
  apply (posts_eq _ _ (all_days ≫= λ d,
    (all_shifts ≫= λ s, [BGe (staff_expr d s) (LConst 1)]) ++
    ([0; 1]%nat ≫= λ s, [BGe (staff_expr d s) (LConst 2)]))); [run_check|].
  unfold add_coverage. apply posts_for_each. intros d Hd%elem_of_seq.
  apply (posts_bind _ _ tt); apply posts_for_each; intros s Hs.
  - apply elem_of_seq in Hs.
    apply (posts_read_then_add _ _ (λ e, BGe e (LConst 1))), staff_sum_lookup; lia.
  - apply (posts_read_then_add _ _ (λ e, BGe e (LConst 2))), staff_sum_lookup;
      [lia|].
    apply elem_of_cons in Hs as [->|Hs]; [unfold num_shifts; lia|].
    apply list_elem_of_singleton in Hs as ->. unfold num_shifts; lia.
Qed.

Lemma posts_rest :
  posts (add_rest main_shifts) tt (constraints rest_model).
Proof.
  apply (posts_eq _ _ (all_physicians ≫= λ p, all_days ≫= λ d,
    [BLe (day_expr p d) (LConst 1)] ++
    if (d <? num_days - 1)%nat
    then [BLe (LAdd (LVar (grid_var p d 2))
                    (LVar (grid_var p ((d + 1) mod 7) 0))) (LConst 1)]
    else [])); [run_check|].
  unfold add_rest. apply posts_for_each. intros p Hp%elem_of_seq.
  apply posts_for_each. intros d Hd%elem_of_seq.
  apply (posts_bind _ _ (day_expr p d) tt []).
  { apply posts_lift, day_sum_lookup; lia. }
  apply (posts_bind _ _ tt tt [BLe (day_expr p d) (LConst 1)]);
    [apply posts_Add|].
  destruct (d <? num_days - 1)%nat; [|apply posts_ret].
  apply (posts_bind _ _ (LVar (grid_var p d 2)) tt []).
  { apply posts_lift, shift_var_lookup; [lia|lia|unfold num_shifts; lia]. }
  apply (posts_bind _ _ (LVar (grid_var p ((d + 1) mod 7) 0)) tt []).
  { apply posts_lift, shift_var_lookup; [lia| |unfold num_shifts; lia].
    apply Nat.mod_upper_bound. lia. }
  apply posts_Add.
Qed.

Lemma posts_fairness :
  posts (add_fairness main_shifts) tt (constraints fairness_model).
Proof.
  apply (posts_eq _ _ ([] ++ (all_physicians ≫= λ p1, all_physicians ≫= λ p2,
    if (p1 <? p2)%nat then [BEq (night_expr p1) (night_expr p2)] else [])));
    [run_check|].
  unfold add_fairness. apply (posts_bind _ _ night_shifts_dict).
  - apply (posts_for_acc all_physicians _
             (λ night_shifts p, <[p := night_expr p]> night_shifts)).
    intros p acc Hp%elem_of_seq.
    apply (posts_bind _ _ (night_expr p) _ [] []); [|apply posts_ret].
    apply posts_lift, night_sum_lookup. lia.
  - apply posts_for_each. intros p1 Hp1%elem_of_seq.
    apply posts_for_each. intros p2 Hp2%elem_of_seq.
    destruct (p1 <? p2)%nat; [|apply posts_ret].
    apply (posts_bind _ _ (night_expr p1) tt []).
    { apply posts_lift, night_shifts_lookup. lia. }
    apply (posts_bind _ _ (night_expr p2) tt []).
    { apply posts_lift, night_shifts_lookup. lia. }
    apply posts_Add.
Qed.

Lemma posts_senior :
  posts (add_senior main_shifts) tt (constraints senior_model).
Proof.
  apply (posts_eq _ _ (all_days ≫= λ d,
    [BEq (LVar (grid_var 8 d 2)) (LConst 0);
     BEq (LVar (grid_var 9 d 2)) (LConst 0)])); [run_check|].
  unfold add_senior. apply posts_for_each. intros d Hd%elem_of_seq.
  apply (posts_bind _ _ (LVar (grid_var 8 d 2)) tt []).
  { apply posts_lift, shift_var_lookup;
      [unfold num_physicians; lia|lia|unfold num_shifts; lia]. }
  apply (posts_bind _ _ tt tt [_] [_]); [apply posts_Add|].
  apply (posts_read_then_add _ _ (λ e, BEq e (LConst 0))), shift_var_lookup;
    [unfold num_physicians; lia|lia|unfold num_shifts; lia].
Qed.

Lemma posts_weekend :
  posts (add_weekend main_shifts) tt (constraints weekend_model).
Proof.
  apply (posts_eq _ _ (all_physicians ≫= λ p, all_shifts ≫= λ s,
    [BEq (LVar (grid_var p 5 s)) (LVar (grid_var p 6 s))])); [run_check|].
  unfold add_weekend. apply posts_for_each. intros p Hp%elem_of_seq.
  apply posts_for_each. intros s Hs%elem_of_seq.
  apply (posts_bind _ _ (LVar (grid_var p 5 s)) tt []).
  { apply posts_lift, shift_var_lookup; [lia|unfold num_days; lia|lia]. }
  apply (posts_read_then_add _ _ (λ e, BEq (LVar (grid_var p 5 s)) e)),
    shift_var_lookup; [lia|unfold num_days; lia|lia].
Qed.

(** X3. Run on any model, with the dictionary of [main], each of the five
    rule families returns without raising, appends its constraints after
    those already there and changes neither the declared variables nor the
    objective. *)
Theorem rule_families_append (m : CpModel) :
  add_coverage main_shifts m = Some (tt, add_all (constraints coverage_model) m) ∧
  add_rest main_shifts m = Some (tt, add_all (constraints rest_model) m) ∧
  add_fairness main_shifts m = Some (tt, add_all (constraints fairness_model) m) ∧
  add_senior main_shifts m = Some (tt, add_all (constraints senior_model) m) ∧
  add_weekend main_shifts m = Some (tt, add_all (constraints weekend_model) m).
Proof.
  split; [apply posts_coverage|]. split; [apply posts_rest|].
  split; [apply posts_fairness|]. split; [apply posts_senior|].
  apply posts_weekend.
Qed.

Lemma bind_run {S A B} (c : Stateful S A) (f : A → Stateful S B) st x st' :
  c st = Some (x, st') → (c ≫= f) st = f x st'.
Proof. intros H. unfold mbind, Stateful_bind. by rewrite H. Qed.

Lemma bind_raises {S A B} (c : Stateful S A) (f : A → Stateful S B) st :
  c st = None → (c ≫= f) st = None.
Proof. intros H. unfold mbind, Stateful_bind. by rewrite H. Qed.

Lemma total_shifts_filled (m : CpModel) :
  for_acc all_physicians (λ p (total_shifts : gmap nat LinearExpr),
    e ← lift (sum_gen (λ '(d, s), shift_var main_shifts p d s) day_shift_pairs);
    mret (<[p := e]> total_shifts)) ∅ m
  = Some (total_shifts_dict, m).
Proof.
  rewrite (posts_for_acc all_physicians _
             (λ total_shifts p, <[p := total_expr p]> total_shifts)).
  - by rewrite add_all_nil.
  - intros p acc Hp%elem_of_seq.
    apply (posts_bind _ _ (total_expr p) _ [] []); [|apply posts_ret].
    apply posts_lift, total_sum_lookup. lia.
Qed.

(** ** The objective is never set (lines 69-77) *)

(** With the product of values for [*], lines 69-77 would set the sum of
    squared differences as the objective. *)
Lemma set_objective_with_product (m : CpModel) :
  set_objective_with (λ a b, Some (LMul a b)) main_shifts m
  = Some (tt, mkCpModel (variables m) (constraints m) (Some objective_expr)).
Proof.
  unfold set_objective_with.
  rewrite (bind_run _ _ m total_shifts_dict m (total_shifts_filled m)).
  rewrite (bind_run _ _ m objective_expr m).
  - reflexivity.
  - unfold lift. by rewrite squared_differences_lookup.
Qed.

(** As they run, they raise once [total_shifts] is filled, on any model. *)
Lemma set_objective_raises (m : CpModel) : set_objective main_shifts m = None.
Proof.
  unfold set_objective, set_objective_with.
  rewrite (bind_run _ _ m total_shifts_dict m (total_shifts_filled m)).
  apply bind_raises. unfold lift. by rewrite squared_differences_raise.
Qed.

Lemma build_model_raises : build_model empty_model = None.
Proof.
  unfold build_model.
  rewrite (bind_run _ _ _ _ _ build_constraints_runs).
  apply bind_raises, set_objective_raises.
Qed.

Lemma main_model_no_objective : objective main_model = None.
Proof. run_check. Qed.

(** C8 (a defect of the code).  The claim wants the sum of squared pairwise
    differences handed to the solver as the objective, and lines 75-77 say
    and spell out just that: with the product of values for [*] they would
    set an objective that evaluates to that sum under every valuation.  But
    line 76 multiplies two solver expressions, which [cp_model] refuses: on
    any model lines 69-77 raise before [Minimize] is called, so building the
    model of [main] raises and its model never has an objective. *)
Theorem objective_never_set :
  (∀ m, set_objective main_shifts m = None) ∧
  build_model empty_model = None ∧
  objective main_model = None ∧
  (∀ m, set_objective_with (λ a b, Some (LMul a b)) main_shifts m
        = Some (tt, mkCpModel (variables m) (constraints m) (Some objective_expr))) ∧
  (∀ sol : nat → Z,
     eval sol objective_expr
     = pairwise_squared_differences (total_shift_count sol) num_physicians).
Proof.
  split; [exact set_objective_raises|].
  split; [exact build_model_raises|].
  split; [exact main_model_no_objective|].
  split; [exact set_objective_with_product|exact eval_objective_expr].
Qed.

(** ** What the rule families imply together *)

Lemma relaxed_models_include :
  (includes coverage_model without_fairness_model ∧
   includes rest_model without_fairness_model ∧
   includes senior_model without_fairness_model ∧
   includes weekend_model without_fairness_model) ∧
  (includes coverage_model without_senior_model ∧
   includes rest_model without_senior_model ∧
   includes fairness_model without_senior_model ∧
   includes weekend_model without_senior_model) ∧
  (includes rest_model without_coverage_model ∧
   includes fairness_model without_coverage_model ∧
   includes senior_model without_coverage_model ∧
   includes weekend_model without_coverage_model).
Proof.
  split; [|split];
    (split; [|split; [|split]]); apply includesb_true; run_check.
Qed.

Lemma seniors_by_day_feasible :
  feasible (roster seniors_by_day) without_fairness_model.
Proof. apply feasibleb_true. run_check. Qed.

Lemma two_nights_each_feasible :
  feasible (roster two_nights_each) without_senior_model.
Proof. apply feasibleb_true. run_check. Qed.

Lemma day_off_uncovered : feasible day_off without_coverage_model.
Proof. apply feasibleb_true. run_check. Qed.

Lemma rest_declares_grid m : includes rest_model m → declares_grid m.
Proof.
  apply includes_declares_grid.
  exact (proj1 (proj2 grid_model_variables)).
Qed.

Lemma coverage_declares_grid m : includes coverage_model m → declares_grid m.
Proof. apply includes_declares_grid. exact (proj1 grid_model_variables). Qed.

Lemma sumZ_add {A} (g h : A → Z) (l : list A) :
  sumZ ((λ x, g x + h x) <$> l) = sumZ (g <$> l) + sumZ (h <$> l).
Proof.
  induction l as [|x l IH]; [reflexivity|].
  rewrite !fmap_cons.
  change (g x + h x + sumZ ((λ x, g x + h x) <$> l)
          = g x + sumZ (g <$> l) + (h x + sumZ (h <$> l))).
  rewrite IH. lia.
Qed.

Lemma sumZ_const_zero {A} (l : list A) : sumZ ((λ _, 0) <$> l) = 0.
Proof. apply sumZ_zero, Forall_fmap, Forall_forall. reflexivity. Qed.

(** Rows first or columns first. *)
Lemma sumZ_swap {A B} (f : A → B → Z) (l1 : list A) (l2 : list B) :
  sumZ ((λ x, sumZ (f x <$> l2)) <$> l1)
  = sumZ ((λ y, sumZ ((λ x, f x y) <$> l1)) <$> l2).
Proof.
  induction l1 as [|x l1 IH].
  - symmetry. apply sumZ_const_zero.
  - rewrite fmap_cons.
    change (sumZ (f x <$> l2) + sumZ ((λ x, sumZ (f x <$> l2)) <$> l1)
            = sumZ ((λ y, f x y + sumZ ((λ x, f x y) <$> l1)) <$> l2)).
    rewrite IH. symmetry.
    apply (sumZ_add (f x) (λ y, sumZ ((λ x, f x y) <$> l1))).
Qed.

Lemma sumZ_shifts (f : nat → Z) : sumZ (f <$> all_shifts) = f 0%nat + f 1%nat + f 2%nat.
Proof. unfold sumZ, all_shifts, num_shifts. cbn. lia. Qed.

Lemma sumZ_days (f : nat → Z) :
  sumZ (f <$> all_days)
  = f 0%nat + f 1%nat + f 2%nat + f 3%nat + f 4%nat + f 5%nat + f 6%nat.
Proof. unfold sumZ, all_days, num_days. cbn. lia. Qed.

Lemma shifts_on_day_bool sol m p d :
  includes rest_model m → feasible sol m →
  (p < num_physicians)%nat → (d < num_days)%nat →
  0 ≤ shifts_on_day sol p d ≤ 1.
Proof.
  intros Hinc Hf Hp Hd. split.
  - apply sumZ_nonneg, Forall_fmap, Forall_forall. intros s Hs%elem_of_seq.
    apply (assignment_bool sol m p d s (rest_declares_grid m Hinc) Hf Hp Hd). lia.
  - pose proof (feasible_constraint sol m _ Hf
      (proj2 Hinc _ (one_shift_posted p d Hp Hd))) as H1.
    change (eval sol (day_expr p d) ≤ 1) in H1.
    by rewrite eval_day_expr in H1.
Qed.

Lemma staff_at_least sol m d s :
  includes coverage_model m → feasible sol m →
  (d < num_days)%nat → (s < num_shifts)%nat →
  1 ≤ sumZ ((λ p, assignment sol p d s) <$> all_physicians) ∧
  ((s < 2)%nat → 2 ≤ sumZ ((λ p, assignment sol p d s) <$> all_physicians)).
Proof.
  intros Hinc Hf Hd Hs. rewrite <- eval_staff_expr. split.
  - exact (feasible_constraint sol m _ Hf
             (proj2 Hinc _ (coverage_posted d s Hd Hs))).
  - intros Hpeak.
    exact (feasible_constraint sol m _ Hf
             (proj2 Hinc _ (peak_coverage_posted d s Hd Hpeak))).
Qed.

(** X6. Coverage and the one-shift-a-day rule together put at least five of
    the ten physicians to work on every day. *)
Theorem five_at_work_every_day (sol : nat → Z) (m : CpModel) (d : nat) :
  includes coverage_model m → includes rest_model m → feasible sol m →
  (d < num_days)%nat →
  (5 ≤ length (at_work sol d))%nat.
Proof.
  intros Hcov Hrest Hf Hd.
  assert (sumZ ((λ p, shifts_on_day sol p d) <$> all_physicians)
          = Z.of_nat (length (at_work sol d))) as Hcount.
  { apply (sumZ_count (λ p, shifts_on_day sol p d)).
    apply Forall_forall. intros p Hp%elem_of_seq.
    apply (shifts_on_day_bool sol m p d Hrest Hf); [lia|exact Hd]. }
  assert (5 ≤ sumZ ((λ p, shifts_on_day sol p d) <$> all_physicians)) as Hfive.
  { unfold shifts_on_day.
    rewrite (sumZ_swap (λ p s, assignment sol p d s) all_physicians all_shifts).
    rewrite (sumZ_shifts (λ s, sumZ ((λ p, assignment sol p d s) <$> all_physicians))).
    destruct (staff_at_least sol m d 0 Hcov Hf Hd) as [_ H0];
      [unfold num_shifts; lia|].
    destruct (staff_at_least sol m d 1 Hcov Hf Hd) as [_ H1];
      [unfold num_shifts; lia|].
    destruct (staff_at_least sol m d 2 Hcov Hf Hd) as [H2 _];
      [unfold num_shifts; lia|].
    specialize (H0 ltac:(lia)). specialize (H1 ltac:(lia)).
    revert H0 H1 H2.
    generalize (sumZ ((λ p, assignment sol p d 0) <$> all_physicians))
               (sumZ ((λ p, assignment sol p d 1) <$> all_physicians))
               (sumZ ((λ p, assignment sol p d 2) <$> all_physicians)).
    clear. intros; lia. }
  rewrite Hcount in Hfive. clear -Hfive. lia.
Qed.

Lemma five_at_work_every_day_witness :
  feasible (roster seniors_by_day) without_fairness_model ∧
  (5 ≤ length (at_work (roster seniors_by_day) 3))%nat.
Proof.
  split; [exact seniors_by_day_feasible|].
  destruct relaxed_models_include as ((Hcov & Hrest & _) & _).
  apply (five_at_work_every_day (roster seniors_by_day) without_fairness_model 3).
  - exact Hcov.
  - exact Hrest.
  - exact seniors_by_day_feasible.
  - unfold num_days; lia.
Defined.

(** No constraint of [main]'s model ties a physician's night shift on day 4
    to the morning shift of day 6. *)
Lemma friday_sunday_unlinked (p : nat) :
  (p < num_physicians)%nat →
  Forall (λ ct, ¬ (mentions (grid_var p 4 2) ct ∧
                   mentions (grid_var p 6 0) ct)) (constraints main_model).
Proof. unfold mentions. revert p. check_ranges. Qed.

(** The rest constraints alone allow both. *)
Lemma friday_night_sunday_morning_rests (p : nat) :
  (p < num_physicians)%nat →
  feasibleb (roster [(p, 4, 2); (p, 6, 0)]%nat) rest_model = true ∧
  assignment (roster [(p, 4, 2); (p, 6, 0)]%nat) p 4 2 = 1 ∧
  assignment (roster [(p, 4, 2); (p, 6, 0)]%nat) p 6 0 = 1.
Proof. revert p. check_ranges. Qed.

(** X7. Rest and weekend mirroring together: a physician on the night shift
    of day 4 (Friday) has no morning shift on day 5 nor, through the mirror,
    on day 6.  No constraint links day 4 to day 6: none in [main]'s model
    mentions both that night and that morning of a physician, and the rest
    constraints alone are satisfied by a solution that assigns both. *)
Theorem friday_night_frees_weekend_mornings (sol : nat → Z) (m : CpModel) (p : nat) :
  includes rest_model m → includes weekend_model m → feasible sol m →
  (p < num_physicians)%nat →
  assignment sol p 4 2 = 1 →
  (assignment sol p 5 0 = 0 ∧ assignment sol p 6 0 = 0) ∧
  Forall (λ ct, ¬ (mentions (grid_var p 4 2) ct ∧
                   mentions (grid_var p 6 0) ct)) (constraints main_model) ∧
  ∃ sol', feasible sol' rest_model ∧
          assignment sol' p 4 2 = 1 ∧ assignment sol' p 6 0 = 1.
Proof.
  intros Hrest Hweek Hf Hp Hnight. split; [|split].
  - pose proof (feasible_constraint sol m _ Hf
      (proj2 Hrest _ (rest_posted p 4 Hp ltac:(unfold num_days; lia)))) as Hr.
    change (assignment sol p 4 2 + assignment sol p 5 0 ≤ 1) in Hr.
    pose proof (feasible_constraint sol m _ Hf
      (proj2 Hweek _ (weekend_posted p 0 Hp ltac:(unfold num_shifts; lia)))) as Hw.
    change (assignment sol p 5 0 = assignment sol p 6 0) in Hw.
    pose proof (assignment_bool sol m p 5 0 (rest_declares_grid m Hrest) Hf Hp
      ltac:(unfold num_days; lia) ltac:(unfold num_shifts; lia)) as Hb.
    revert Hnight Hr Hw Hb.
    generalize (assignment sol p 4 2) (assignment sol p 5 0) (assignment sol p 6 0).
    clear. intros; lia.
  - exact (friday_sunday_unlinked p Hp).
  - exists (roster [(p, 4, 2); (p, 6, 0)]%nat).
    destruct (friday_night_sunday_morning_rests p Hp) as (Hfb & H4 & H6).
    split; [apply feasibleb_true, Hfb|]. split; [exact H4|exact H6].
Qed.

Lemma friday_night_frees_weekend_mornings_witness :
  feasible (roster seniors_by_day) without_fairness_model ∧
  assignment (roster seniors_by_day) 4 4 2 = 1 ∧
  assignment (roster seniors_by_day) 4 5 0 = 0 ∧
  assignment (roster seniors_by_day) 4 6 0 = 0.
Proof.
  split; [exact seniors_by_day_feasible|]. split; [reflexivity|].
  destruct relaxed_models_include as ((_ & Hrest & _ & Hweek) & _).
  apply (friday_night_frees_weekend_mornings
           (roster seniors_by_day) without_fairness_model 4).
  - exact Hrest.
  - exact Hweek.
  - exact seniors_by_day_feasible.
  - unfold num_physicians; lia.
  - reflexivity.
Defined.

Lemma night_counts_equal_any sol m p q :
  includes fairness_model m → feasible sol m →
  (p < num_physicians)%nat → (q < num_physicians)%nat →
  night_shift_count sol p = night_shift_count sol q.
Proof.
  intros Hinc Hf Hp Hq.
  destruct (Nat.lt_trichotomy p q) as [H|[->|H]].
  - by apply (night_counts_equal sol m).
  - reflexivity.
  - symmetry. by apply (night_counts_equal sol m).
Qed.

(** Somebody holds a shift whose staffing sum is at least 1. *)
Lemma somebody_on_shift sol m d s :
  includes coverage_model m → feasible sol m →
  (d < num_days)%nat → (s < num_shifts)%nat →
  ∃ q, (q < num_physicians)%nat ∧ assignment sol q d s = 1.
Proof.
  intros Hinc Hf Hd Hs.
  destruct (staff_at_least sol m d s Hinc Hf Hd Hs) as [Hone _].
  rewrite (sumZ_count (λ p, assignment sol p d s)) in Hone.
  - destruct (filter (λ p, assignment sol p d s = 1) all_physicians)
      as [|q l] eqn:E; [simpl in Hone; lia|].
    assert (q ∈ filter (λ p, assignment sol p d s = 1) all_physicians) as Hq
      by (rewrite E; left).
    apply list_elem_of_filter in Hq as [Hq Hin%elem_of_seq].
    exists q. split; [lia|exact Hq].
  - apply Forall_forall. intros p Hp%elem_of_seq.
    apply (assignment_bool sol m p d s (coverage_declares_grid m Hinc) Hf);
      [lia|exact Hd|exact Hs].
Qed.

(** X8. Coverage, fairness and weekend mirroring together make every
    physician work at least two night shifts a week: whoever covers the
    night of day 5 also covers that of day 6, and everybody must match that
    count. *)
Theorem at_least_two_nights_each (sol : nat → Z) (m : CpModel) (p : nat) :
  includes coverage_model m → includes fairness_model m →
  includes weekend_model m → feasible sol m →
  (p < num_physicians)%nat →
  2 ≤ night_shift_count sol p.
Proof.
  intros Hcov Hfair Hweek Hf Hp.
  destruct (somebody_on_shift sol m 5 2 Hcov Hf) as (q & Hq & Hsat);
    [unfold num_days; lia|unfold num_shifts; lia|].
  pose proof (feasible_constraint sol m _ Hf
    (proj2 Hweek _ (weekend_posted q 2 Hq ltac:(unfold num_shifts; lia)))) as Hw.
  change (assignment sol q 5 2 = assignment sol q 6 2) in Hw.
  rewrite (night_counts_equal_any sol m p q Hfair Hf Hp Hq).
  unfold night_shift_count. rewrite (sumZ_days (λ d, assignment sol q d 2)).
  assert (∀ d, (d < num_days)%nat → 0 ≤ assignment sol q d 2) as Hnn.
  { intros d Hd.
    apply (assignment_bool sol m q d 2 (coverage_declares_grid m Hcov) Hf Hq Hd).
    unfold num_shifts; lia. }
  pose proof (Hnn 0%nat ltac:(unfold num_days; lia)) as H0.
  pose proof (Hnn 1%nat ltac:(unfold num_days; lia)) as H1.
  pose proof (Hnn 2%nat ltac:(unfold num_days; lia)) as H2.
  pose proof (Hnn 3%nat ltac:(unfold num_days; lia)) as H3.
  pose proof (Hnn 4%nat ltac:(unfold num_days; lia)) as H4.
  revert Hsat Hw H0 H1 H2 H3 H4.
  generalize (assignment sol q 0 2) (assignment sol q 1 2) (assignment sol q 2 2)
             (assignment sol q 3 2) (assignment sol q 4 2) (assignment sol q 5 2)
             (assignment sol q 6 2).
  clear. intros; lia.
Qed.

Lemma at_least_two_nights_each_witness :
  feasible (roster two_nights_each) without_senior_model ∧
  2 ≤ night_shift_count (roster two_nights_each) 7.
Proof.
  split; [exact two_nights_each_feasible|].
  destruct relaxed_models_include as (_ & (Hcov & _ & Hfair & Hweek) & _).
  apply (at_least_two_nights_each (roster two_nights_each) without_senior_model 7).
  - exact Hcov.
  - exact Hfair.
  - exact Hweek.
  - exact two_nights_each_feasible.
  - unfold num_physicians; lia.
Defined.

(** ** Which rules make the model infeasible *)

Lemma relaxed_constraints :
  constraints without_coverage_model
  = constraints rest_model ++ constraints fairness_model ++
    constraints senior_model ++ constraints weekend_model ∧
  constraints without_fairness_model
  = constraints coverage_model ++ constraints rest_model ++
    constraints senior_model ++ constraints weekend_model ∧
  constraints without_senior_model
  = constraints coverage_model ++ constraints rest_model ++
    constraints fairness_model ++ constraints weekend_model.
Proof. split; [run_check|]. split; run_check. Qed.

(** X9. The infeasibility of [main]'s model needs coverage, fairness and the
    senior rule all three: with any one of them left out, the four families
    that remain (posted on the same grid, in the same order) have a feasible
    solution. *)
Theorem any_one_rule_less_is_feasible :
  (constraints without_coverage_model
   = constraints rest_model ++ constraints fairness_model ++
     constraints senior_model ++ constraints weekend_model ∧
   ∃ sol, feasible sol without_coverage_model) ∧
  (constraints without_fairness_model
   = constraints coverage_model ++ constraints rest_model ++
     constraints senior_model ++ constraints weekend_model ∧
   ∃ sol, feasible sol without_fairness_model) ∧
  (constraints without_senior_model
   = constraints coverage_model ++ constraints rest_model ++
     constraints fairness_model ++ constraints weekend_model ∧
   ∃ sol, feasible sol without_senior_model).
Proof.
  destruct relaxed_constraints as (Ec & Ef & Es).
  split; [split; [exact Ec|]|split; [split; [exact Ef|]|split; [exact Es|]]].
  - exists day_off. exact day_off_uncovered.
  - exists (roster seniors_by_day). exact seniors_by_day_feasible.
  - exists (roster two_nights_each). exact two_nights_each_feasible.
Qed.

(** ** What the printing loops read (lines 84-94) *)

Lemma value_reads_bind {A} (f : A → list Event) (l : list A) :
  value_reads (l ≫= f) = l ≫= λ x, value_reads (f x).
Proof.
  induction l as [|x l IH]; [reflexivity|].
  rewrite !bind_cons, value_reads_app, IH. reflexivity.
Qed.

Lemma value_reads_physician sol d s p :
  value_reads (physician_trace sol d s p) = [grid_var p d s].
Proof. unfold physician_trace. by destruct (assignment sol p d s =? 1). Qed.

Lemma value_reads_solution sol : value_reads (solution_trace sol) = reading_order.
Proof.
  unfold solution_trace, reading_order.
  rewrite value_reads_app, value_reads_bind.
  change (value_reads [Printed ("Solution found:" +:+ newline)]) with (@nil IntVar).
  rewrite app_nil_l. apply list_bind_ext; [|reflexivity]. intros d.
  unfold day_trace. rewrite !value_reads_app, value_reads_bind.
  change (value_reads [Printed ("" +:+ newline)]) with (@nil IntVar).
  change (value_reads [Printed (("Day " +:+ pretty (d + 1)%nat +:+ ":") +:+ newline)])
    with (@nil IntVar).
  rewrite app_nil_l, app_nil_r. apply list_bind_ext; [|reflexivity]. intros s.
  unfold shift_trace. rewrite !value_reads_app, value_reads_bind.
  change (value_reads [Printed ("" +:+ newline)]) with (@nil IntVar).
  change (value_reads
            [Printed (("  Shift " +:+ pretty (s + 1)%nat +:+ ":") +:+ " ")])
    with (@nil IntVar).
  rewrite app_nil_l, app_nil_r. apply list_bind_ext; [|reflexivity]. intros p.
  apply value_reads_physician.
Qed.

Lemma reading_order_complete :
  NoDup reading_order ∧
  ∀ v, v ∈ reading_order ↔ v ∈ variables main_model.
Proof.
  split; [apply (bool_decide_eq_true_1 _); run_check|].
  assert (forallb (λ v, bool_decide (v ∈ variables main_model)) reading_order
          && forallb (λ v, bool_decide (v ∈ reading_order)) (variables main_model)
          = true) as H by run_check.
  apply andb_true_iff in H as [H1 H2].
  rewrite forallb_forall in H1. rewrite forallb_forall in H2.
  intros v. split; intros Hv%list_elem_of_In.
  - exact (bool_decide_eq_true_1 _ (H1 v Hv)).
  - exact (bool_decide_eq_true_1 _ (H2 v Hv)).
Qed.

(** X10. On status OPTIMAL or FEASIBLE the printing code asks the solver for
    the value of every variable of the model exactly once, day by day, within
    a day shift by shift, within a shift physician by physician. *)
Theorem every_variable_read_once (sol : nat → Z) (status : CpSolverStatus) :
  status = OPTIMAL ∨ status = FEASIBLE →
  ∃ tr,
    print_solution main_shifts sol status [] = Some (tt, tr) ∧
    value_reads tr = reading_order ∧
    NoDup (value_reads tr) ∧
    ∀ v, v ∈ value_reads tr ↔ v ∈ variables main_model.
Proof.
  intros Hst. exists (solution_trace sol).
  split; [apply (emits_solution sol status Hst [])|].
  rewrite value_reads_solution.
  split; [reflexivity|]. exact reading_order_complete.
Qed.

Lemma every_variable_read_once_witness :
  ∃ tr,
    print_solution main_shifts (roster two_nights_each) FEASIBLE [] = Some (tt, tr) ∧
    value_reads tr = reading_order.
Proof.
  destruct (every_variable_read_once (roster two_nights_each) FEASIBLE)
    as (tr & Hrun & Hreads & _).
  - right; reflexivity.
  - exists tr. split; [exact Hrun|exact Hreads].
Defined.

(** ** The program as a whole (lines 3-103) *)


(** ** Examples *)

Example shift_name_3_4_2 : shift_name 3 4 2 = "shift_p3_d4_s2".
Proof. run_check. Qed.

(** 210 variables; 35 + 130 + 45 + 14 + 30 = 254 constraints. *)
Example main_model_size :
  length (variables main_model) = 210%nat ∧
  length (constraints main_model) = 254%nat.
Proof. split; run_check. Qed.

Example first_constraint :
  constraints main_model !! 0%nat = Some (BGe (staff_expr 0 0) (LConst 1)).
Proof. run_check. Qed.

Example one_night_each_counts :
  night_shift_count one_night_each 2 = 1 ∧ night_shift_count one_night_each 9 = 1.
Proof. split; run_check. Qed.

(** Everybody on every shift breaks the model: more than one shift a day. *)
Example all_hands_refused : feasibleb all_hands main_model = false.
Proof. run_check. Qed.

Example no_solution_text :
  stdout <$> (snd <$> print_solution main_shifts day_off INFEASIBLE [])
  = Some ("No solution found." +:+ newline).
Proof. run_check. Qed.

(** The first day of the report for a solution with physician 0 on the
    morning shifts of days 0 and 1. *)
Example two_mornings_first_day :
  schedule two_mornings !! 0%nat
  = Some (1%nat, [(1%nat, [1%nat]); (2%nat, []); (3%nat, [])]).
Proof. run_check. Qed.

Example two_nights_each_counts :
  night_shift_count (roster two_nights_each) 0 = 2 ∧
  night_shift_count (roster two_nights_each) 9 = 2.
Proof. split; run_check. Qed.

Example seniors_by_day_headcount :
  at_work (roster seniors_by_day) 3 = [3; 6; 7; 8; 9]%nat.
Proof. run_check. Qed.

(** A product with a number on one side is built; with an expression on
    both sides it is refused. *)
Example expr_mul_by_number :
  expr_mul (LConst 2) (night_expr 0) = Some (LMul (LConst 2) (night_expr 0)).
Proof. reflexivity. Qed.

Example expr_mul_of_expressions :
  expr_mul (LSub (total_expr 0) (total_expr 1)) (LSub (total_expr 0) (total_expr 1))
  = None.
Proof. reflexivity. Qed.
